(** * goph419 binary examples: a shallow embedding of [src/goph419/binary.py]

    Python integers are modelled as [Z], Python lists as [list], Python
    strings as [string], the module-level dictionary [_dec2bin] as a
    [gmap string (list Z)].  Exceptions are values of an error monad
    [result]; the only unbounded loop ([while np.any(rem)] in [dec2bin])
    takes a fuel argument. *)

From Stdlib Require Import ZArith Lia Ascii String DecimalString DecimalPos.
From stdpp Require Import base list strings gmap.

Local Open Scope Z_scope.

(** ** Exceptions *)

Inductive exn : Set := ValueError | KeyError | IndexError | ImportError.

Inductive result (A : Type) : Type :=
| Ok (a : A)
| Raise (e : exn).
Arguments Ok {A} a.
Arguments Raise {A} e.

#[global] Instance result_ret : MRet result := fun _ a => Ok a.
#[global] Instance result_bind : MBind result := fun _ _ f m =>
  match m with
  | Ok a => f a
  | Raise e => Raise e
  end.

(** [for k in ks: st = body(k, st)], stopping at the first exception. *)
Fixpoint for_each {S K : Type} (ks : list K) (body : K → S → result S) (st : S)
  : result S :=
  match ks with
  | [] => Ok st
  | k :: ks' => st' ← body k st; for_each ks' body st'
  end.

(** [range(n)] *)
Definition range (n : nat) : list nat := seq 0 n.

(** [l[k]] and [l[k] = v] for a non-negative index [k]. *)
Definition getitem (l : list Z) (k : nat) : result Z :=
  match l !! k with
  | Some x => Ok x
  | None => Raise IndexError
  end.

Definition setitem (l : list Z) (k : nat) (v : Z) : result (list Z) :=
  if decide (k < length l)%nat then Ok (<[k:=v]> l) else Raise IndexError.

(** [bool(x)] and [int(bool(x))] on integers. *)
Definition truthy (x : Z) : bool := negb (x =? 0).
Definition int_bool (x : Z) : Z := if truthy x then 1 else 0.

(** [str(x)] on an integer. *)
Definition str (x : Z) : string := NilZero.string_of_int (Z.to_int x).

(** [sep.join(parts)] with the empty separator. *)
Definition join (parts : list string) : string :=
  foldr String.append EmptyString parts.

(** ** 32-bit encoders *)

(** The loop of [binary_int32_big]: [n] is [p + 1], so that [while p >= 0]
    is the match on [n]. *)
Fixpoint binary_int32_big_loop (n : nat) (x : Z) (d : list Z) : list Z :=
  match n with
  | O => d
  | S p =>
      let d := d ++ [if x >=? 2 ^ Z.of_nat p then 1 else 0] in
      let x := x - List.last d 0 * 2 ^ Z.of_nat p in
      binary_int32_big_loop p x d
  end.

Definition binary_int32_big_digits (x : Z) : list Z :=
  binary_int32_big_loop 32 x [].

Definition binary_int32_big (x : Z) : string :=
  join (str <$> binary_int32_big_digits x).

(** The loop of [binary_int32_lit]: [n] is [32 - p]. *)
Fixpoint binary_int32_lit_loop (n : nat) (x : Z) (d : list Z) : list Z :=
  match n with
  | O => d
  | S n' => binary_int32_lit_loop n' (x / 2) (d ++ [x mod 2])
  end.

Definition binary_int32_lit_digits (x : Z) : list Z :=
  binary_int32_lit_loop 32 x [].

Definition binary_int32_lit (x : Z) : string :=
  join (str <$> binary_int32_lit_digits x).

(** ** Bit-array adder *)

(** One iteration of the inner loop of [bin_add]:
    [res[k] ^= add[k]; add[k] = add[k + 1] & res[k + 1] if k < k_last else 0]. *)
Definition bin_add_body (k_last : Z) (k : nat) (st : list Z * list Z)
  : result (list Z * list Z) :=
  let '(res, add) := st in
  rk ← getitem res k;
  ak ← getitem add k;
  res ← setitem res k (Z.lxor rk ak);
  v ← (if Z.of_nat k <? k_last
       then a1 ← getitem add (k + 1); r1 ← getitem res (k + 1); Ok (Z.land a1 r1)
       else Ok 0);
  add ← setitem add k v;
  Ok (res, add).

Definition bin_add (a b : list Z) : result (list Z) :=
  let k_max := length a in
  let k_last := Z.of_nat k_max - 1 in
  if decide (k_max ≠ length b) then Raise ValueError
  else
    let res := int_bool <$> a in
    let add := int_bool <$> b in
    '(res, _) ← for_each (range k_max)
                  (λ _ st, for_each (range k_max) (bin_add_body k_last) st)
                  (res, add);
    Ok res.

(** [bin_value]: the loop state is [(val, dig)].  On the empty list [dig]
    is never used and [val = 0] is returned. *)
Definition bin_value (a : list Z) : Z :=
  let dig := 2 ^ (Z.of_nat (length a) - 1) in
  fst (fold_left (λ '(val, dig) x, (val + int_bool x * dig, dig / 2)) a (0, dig)).

(** ** Decimal digit table *)

(** [d[key]] on a dictionary. *)
Definition dict_getitem (d : gmap string (list Z)) (key : string)
  : result (list Z) :=
  match d !! key with
  | Some v => Ok v
  | None => Raise KeyError
  end.

Definition get_dec2bin_dict : result (gmap string (list Z)) :=
  let bin := [0; 0; 0; 0] in
  let one := [0; 0; 0; 1] in
  let dec2bin : gmap string (list Z) := ∅ in
  '(_, dec2bin) ← for_each (range 10)
                    (λ k '(bin, dec2bin),
                       let dec2bin := <[str (Z.of_nat k) := bin]> dec2bin in
                       bin ← bin_add bin one;
                       Ok (bin, dec2bin))
                    (bin, dec2bin);
  Ok dec2bin.

(** The module variable [_dec2bin = get_dec2bin_dict()]. *)
Definition _dec2bin : gmap string (list Z) :=
  match get_dec2bin_dict with
  | Ok d => d
  | Raise _ => ∅
  end.

(** Iterating over a string yields its one-character substrings. *)
Definition chars (s : string) : list string :=
  (λ c, String c EmptyString) <$> String.list_ascii_of_string s.

(** [[f(x) for x in l]] where [f] may raise. *)
Fixpoint comprehension {A B : Type} (f : A → result B) (l : list A)
  : result (list B) :=
  match l with
  | [] => Ok []
  | x :: l' => y ← f x; ys ← comprehension f l'; Ok (y :: ys)
  end.

Definition dec2bin_array (s : string) : result (list (list Z)) :=
  comprehension (dict_getitem _dec2bin) (chars s).

(** ** Halving and the decimal-to-binary converter *)

(** [res = [0 for _ in range(len(a))]; res[1:] = a[:-1]] *)
Definition floor_div_2 (a : list Z) : list Z :=
  let res := (λ _, 0) <$> range (length a) in
  take 1 res ++ removelast a.

(** [l[-1]] *)
Definition getlast {A : Type} (l : list A) : result A :=
  match last l with
  | Some x => Ok x
  | None => Raise IndexError
  end.

(** [np.any(rem)] on a list of equally long integer lists. *)
Definition np_any (rem : list (list Z)) : bool :=
  existsb (existsb truthy) rem.

(** The body of the [while] loop of [dec2bin]. *)
Definition dec2bin_body (st : list (list Z) * list Z)
  : result (list (list Z) * list Z) :=
  let '(rem, bin) := st in
  g ← getlast rem;
  b ← getlast g;
  let bin := bin ++ [b] in
  add ← comprehension
          (λ x, xl ← getlast x;
                if truthy xl then dict_getitem _dec2bin "5"
                else dict_getitem _dec2bin "0")
          (removelast rem);
  let rem := floor_div_2 <$> rem in
  new ← comprehension (λ '(r, a), bin_add r a) (zip (drop 1 rem) add);
  let rem := take 1 rem ++ new in
  Ok (rem, bin).

(** [while np.any(rem): body]; [None] when the fuel runs out. *)
Fixpoint dec2bin_loop (fuel : nat) (st : list (list Z) * list Z)
  : option (result (list (list Z) * list Z)) :=
  match fuel with
  | O => None
  | S fuel' =>
      if np_any (fst st) then
        match dec2bin_body st with
        | Ok st' => dec2bin_loop fuel' st'
        | Raise e => Some (Raise e)
        end
      else Some (Ok st)
  end.

Definition dec2bin (fuel : nat) (s : string) : option (result string) :=
  match dec2bin_array s with
  | Raise e => Some (Raise e)
  | Ok rem =>
      match dec2bin_loop fuel (rem, []) with
      | None => None
      | Some (Raise e) => Some (Raise e)
      | Some (Ok (_, bin)) => Some (Ok ("0b" +:+ join (str <$> reverse bin)))
      end
  end.

(** ** Python built-ins used to state the round trip *)

Definition is_digit (c : ascii) : bool :=
  (48 <=? Ascii.nat_of_ascii c)%nat && (Ascii.nat_of_ascii c <=? 57)%nat.

(** A string, possibly empty, of characters '0'..'9'. *)
Definition is_digit_string (s : string) : bool :=
  forallb is_digit (String.list_ascii_of_string s).

Definition digit_of (c : ascii) : Z := Z.of_nat (Ascii.nat_of_ascii c) - 48.

(** The integer a decimal digit string represents ([int(s)]). *)
Definition dec_value (s : string) : Z :=
  fold_left (λ acc c, 10 * acc + digit_of c) (String.list_ascii_of_string s) 0.

Definition is_bit (c : ascii) : bool :=
  (Ascii.nat_of_ascii c =? 48)%nat || (Ascii.nat_of_ascii c =? 49)%nat.

(** [int(s, 2)] on strings made of an optional [0b] prefix and binary
    digits: at least one digit must follow the prefix, otherwise
    [ValueError] is raised. *)
Definition int_base2 (s : string) : result Z :=
  let body :=
    match s with
    | String "0" (String "b" rest) => rest
    | String "0" (String "B" rest) => rest
    | _ => s
    end in
  let cs := String.list_ascii_of_string body in
  if forallb is_bit cs && negb (bool_decide (cs = [])) then
    Ok (fold_left (λ acc c, 2 * acc + digit_of c) cs 0)
  else Raise ValueError.

(** ** The demonstration script *)

(** Names bound at the top level of [goph419/binary.py]. *)
Definition binary_module_names : list string :=
  ["np"; "binary_int32_big"; "binary_int32_lit"; "bin_add"; "bin_value";
   "get_dec2bin_dict"; "_dec2bin"; "dec2bin_array"; "floor_div_2"; "dec2bin"]%string.

(** Names requested by [from goph419.binary import (...)] in
    [examples/binary_example.py]. *)
Definition binary_example_imports : list string :=
  ["bin_add_4"; "bin_value"; "dec2bin_array"; "floor_div_2"; "dec2bin"]%string.

(** [from m import n1, n2, ...]: raises [ImportError] at the first name the
    module does not bind. *)
Definition import_from (module_names wanted : list string) : result unit :=
  for_each wanted
    (λ name _, if bool_decide (name ∈ module_names) then Ok ()
               else Raise ImportError)
    ().

(** The script: its import statement runs before [main] is even defined. *)
Definition binary_example (main : unit → result unit) : result unit :=
  _ ← import_from binary_module_names binary_example_imports;
  main ().

(** ** Specification vocabulary *)

(** Most-significant-bit-first value of a list of integers. *)
Fixpoint bits_value (l : list Z) : Z :=
  match l with
  | [] => 0
  | x :: l' => x * 2 ^ Z.of_nat (length l') + bits_value l'
  end.

Definition is_bits (l : list Z) : Prop := Forall (λ x, x = 0 ∨ x = 1) l.

(** One pass over two equally long lists: every position takes the XOR of
    the two operands, and the carries move one position towards the
    most-significant end. *)
Fixpoint ripple (r a : list Z) : list Z * list Z :=
  match r, a with
  | x :: r', y :: a' =>
      (Z.lxor x y :: (ripple r' a').1, Z.land (hd 0 a') (hd 0 r') :: (ripple r' a').2)
  | _, _ => ([], [])
  end.

(** The state of [bin_add] after [i] iterations of its outer loop. *)
Definition ripples (i : nat) (st : list Z * list Z) : list Z * list Z :=
  Nat.iter i (λ st, ripple st.1 st.2) st.

(** [s[::-1]] *)
Definition string_reverse (s : string) : string :=
  string_of_list_ascii (reverse (String.list_ascii_of_string s)).

(** The digits of a numeral, as integers: [[int(c) for c in s]]. *)
Definition digits_of_string (s : string) : list Z :=
  digit_of <$> String.list_ascii_of_string s.

(** The character [str] prints for a bit. *)
Definition bit_char (x : Z) : ascii := if x =? 0 then "0"%char else "1"%char.

(** A decimal digit, as an integer. *)
Definition dec_digit (d : Z) : Prop := 0 ≤ d ≤ 9.

(** The four bits of a decimal digit, most significant first. *)
Definition nibble (d : Z) : list Z := [d / 8 mod 2; d / 4 mod 2; d / 2 mod 2; d mod 2].

(** A 4-bit group holding a decimal digit. *)
Definition valid_bcd (g : list Z) : Prop :=
  length g = 4%nat ∧ is_bits g ∧ 0 ≤ bin_value g ≤ 9.

(** Most-significant-digit-first value of a list of decimal digits. *)
Fixpoint digits_value (ds : list Z) : Z :=
  match ds with
  | [] => 0
  | d :: ds' => d * 10 ^ Z.of_nat (length ds') + digits_value ds'
  end.

(** Halving a decimal numeral digit by digit: each digit is halved and
    takes 5 when the digit before it (towards the most-significant end)
    is odd. *)
Fixpoint halve_from (prev : Z) (ds : list Z) : list Z :=
  match ds with
  | [] => []
  | d :: ds' => (d / 2 + 5 * (prev mod 2)) :: halve_from d ds'
  end.

(** The correction [dec2bin] selects from the last bit of a group. *)
Definition correction (g : list Z) : list Z :=
  if truthy (List.last g 0) then [0; 1; 0; 1] else [0; 0; 0; 0].

(** The correction step as the loop of [dec2bin] performs it: the first
    group is only shifted; every later group is shifted and takes 5 exactly
    when the bit shifted out of the group before it was 1. *)
Definition correction_from_previous (rem rem' : list (list Z)) : Prop :=
  (∀ g, rem !! 0%nat = Some g → rem' !! 0%nat = Some (floor_div_2 g))
  ∧ ∀ i p g,
      rem !! i = Some p → rem !! S i = Some g →
      ∃ g', rem' !! S i = Some g'
            ∧ bin_value g' = bin_value g / 2 + (if truthy (List.last p 0) then 5 else 0).

(** The correction step read literally: every group but the last is
    shifted and takes 5 exactly when the bit shifted out of that same
    group was 1; the last group is only shifted. *)
Definition correction_from_own_bit (rem rem' : list (list Z)) : Prop :=
  ∀ i g,
    rem !! i = Some g →
    ∃ g', rem' !! i = Some g'
          ∧ bin_value g'
            = bin_value g / 2
              + (if bool_decide (S i < length rem)%nat && truthy (List.last g 0)
                 then 5 else 0).

(** The binary digits of a positive number, least significant first. *)
Fixpoint pos_bits (p : positive) : list Z :=
  match p with
  | xH => [1]
  | xO q => 0 :: pos_bits q
  | xI q => 1 :: pos_bits q
  end.

(** What [dec2bin] does on a digit string, as a function of the integer
    [n >= 0] the string represents and of the fuel: the loop needs one
    evaluation of its condition per binary digit of [n], and one more. *)
Definition dec2bin_of_value (fuel : nat) (n : Z) : option (result string) :=
  match n with
  | Z.pos p =>
      if decide (Pos.size_nat p < fuel)%nat
      then Some (Ok ("0b" +:+ join (str <$> reverse (pos_bits p))))
      else None
  | _ => if decide (0 < fuel)%nat then Some (Ok "0b"%string) else None
  end.

(** * Properties *)

(** ** Worked examples *)

Example bin_add_7_5 : bin_add [0; 1; 1; 1] [0; 1; 0; 1] = Ok [1; 1; 0; 0].
Proof. reflexivity. Qed.

Example bin_value_12 : bin_value [1; 1; 0; 0] = 12.
Proof. reflexivity. Qed.

Example big_5 : binary_int32_big 5 = "00000000000000000000000000000101"%string.
Proof. vm_compute. reflexivity. Qed.

Example lit_5 : binary_int32_lit 5 = "10100000000000000000000000000000"%string.
Proof. vm_compute. reflexivity. Qed.

Example dec2bin_913 : dec2bin 20 "913" = Some (Ok "0b1110010001"%string).
Proof. vm_compute. reflexivity. Qed.

Example dec2bin_0 : dec2bin 20 "0" = Some (Ok "0b"%string).
Proof. vm_compute. reflexivity. Qed.

Example floor_div_2_5 : floor_div_2 [0; 1; 0; 1] = [0; 0; 1; 0].
Proof. reflexivity. Qed.

Example int_base2_ex : int_base2 "0b1110010001" = Ok 913.
Proof. vm_compute. reflexivity. Qed.

Example int_base2_0b : int_base2 "0b" = Raise ValueError.
Proof. vm_compute. reflexivity. Qed.

(** ** Values of bit lists *)

Lemma int_bool_bit x : int_bool x = 0 ∨ int_bool x = 1.
Proof. unfold int_bool. destruct (truthy x); auto. Qed.

Lemma int_bool_id x : x = 0 ∨ x = 1 → int_bool x = x.
Proof. intros [-> | ->]; reflexivity. Qed.

Lemma is_bits_int_bool a : is_bits (int_bool <$> a).
Proof. induction a; constructor; auto using int_bool_bit. Qed.

Lemma int_bool_fmap_id l : is_bits l → int_bool <$> l = l.
Proof.
  induction 1 as [| x l Hx _ IH]; [reflexivity |].
  rewrite fmap_cons, int_bool_id, IH by assumption. reflexivity.
Qed.

Lemma bits_value_app l x : bits_value (l ++ [x]) = 2 * bits_value l + x.
Proof.
  induction l as [| y l IH]; simpl; [lia |].
  rewrite IH, length_app, Nat.add_1_r, Nat2Z.inj_succ, Z.pow_succ_r by lia.
  lia.
Qed.

Lemma bits_value_bounds l : is_bits l → 0 ≤ bits_value l < 2 ^ Z.of_nat (length l).
Proof.
  induction 1 as [| x l Hx _ IH]; simpl length; simpl bits_value; [simpl; lia |].
  rewrite Nat2Z.inj_succ, Z.pow_succ_r by lia.
  destruct Hx as [-> | ->]; lia.
Qed.

Lemma bin_value_fold a val dig :
  (a ≠ [] → dig = 2 ^ (Z.of_nat (length a) - 1)) →
  fst (fold_left (λ '(val, dig) x, (val + int_bool x * dig, dig / 2)) a (val, dig))
  = val + bits_value (int_bool <$> a).
Proof.
  revert val dig. induction a as [| x a IH]; intros val dig Hdig.
  - simpl. lia.
  - rewrite fmap_cons. cbn [fold_left bits_value]. rewrite IH.
    + rewrite length_fmap, Hdig by discriminate. simpl length.
      replace (Z.of_nat (S (length a)) - 1) with (Z.of_nat (length a)) by lia. lia.
    + intros Ha. rewrite Hdig by discriminate. simpl length.
      destruct a as [| y a]; [congruence |]. simpl length.
      replace (Z.of_nat (S (S (length a))) - 1) with (Z.succ (Z.of_nat (S (length a)) - 1)) by lia.
      rewrite Z.pow_succ_r by lia. rewrite Z.mul_comm, Z.div_mul by lia. reflexivity.
Qed.

Lemma bin_value_bits_value a : bin_value a = bits_value (int_bool <$> a).
Proof. unfold bin_value. rewrite bin_value_fold; [lia | auto]. Qed.

Lemma bin_value_is_bits l : is_bits l → bin_value l = bits_value l.
Proof. intros H. rewrite bin_value_bits_value, int_bool_fmap_id; auto. Qed.

(** ** [floor_div_2] *)

Lemma floor_div_2_unfold a :
  floor_div_2 a = match a with [] => [] | _ :: _ => 0 :: removelast a end.
Proof. destruct a; reflexivity. Qed.

Lemma floor_div_2_snoc l x : floor_div_2 (l ++ [x]) = 0 :: l.
Proof.
  rewrite floor_div_2_unfold, removelast_last.
  destruct l; reflexivity.
Qed.

Lemma floor_div_2_length a : length (floor_div_2 a) = length a.
Proof.
  destruct a as [| x a] using rev_ind; [reflexivity |].
  rewrite floor_div_2_snoc, length_app. simpl. lia.
Qed.

Lemma floor_div_2_value a : bin_value (floor_div_2 a) = bin_value a / 2.
Proof.
  destruct a as [| x a _] using rev_ind; [reflexivity |].
  rewrite floor_div_2_snoc, !bin_value_bits_value, fmap_app, fmap_cons.
  change (int_bool <$> [x]) with [int_bool x]. rewrite bits_value_app.
  cbn [bits_value]. change (int_bool 0) with 0. rewrite Z.mul_0_l, Z.add_0_l.
  apply Z.div_unique with (r := int_bool x); [| lia].
  destruct (int_bool_bit x) as [-> | ->]; lia.
Qed.

(** ** [bin_add]: the inner loop is one half-adder pass *)

Lemma getitem_middle pr x r : getitem (pr ++ x :: r) (length pr) = Ok x.
Proof. unfold getitem. rewrite list_lookup_middle; reflexivity. Qed.

Lemma getitem_next pr x y r : getitem (pr ++ x :: y :: r) (length pr + 1) = Ok y.
Proof.
  unfold getitem.
  replace (pr ++ x :: y :: r) with ((pr ++ [x]) ++ y :: r)
    by (rewrite <- app_assoc; reflexivity).
  rewrite list_lookup_middle; [reflexivity |].
  rewrite length_app. simpl. lia.
Qed.

Lemma setitem_middle pr x r v :
  setitem (pr ++ x :: r) (length pr) v = Ok (pr ++ v :: r).
Proof.
  unfold setitem. rewrite decide_True by (rewrite length_app; simpl; lia).
  rewrite insert_app_r_alt, Nat.sub_diag by lia. reflexivity.
Qed.

Lemma bin_add_body_middle pr pa x y r a :
  length pr = length pa → length r = length a →
  bin_add_body (Z.of_nat (length pr + S (length r)) - 1) (length pr)
    (pr ++ x :: r, pa ++ y :: a)
  = Ok (pr ++ Z.lxor x y :: r, pa ++ Z.land (hd 0 a) (hd 0 r) :: a).
Proof.
  intros Hp Hr. unfold bin_add_body.
  rewrite getitem_middle. cbn [mbind result_bind].
  rewrite Hp at 1. rewrite getitem_middle. cbn [mbind result_bind].
  rewrite setitem_middle. cbn [mbind result_bind].
  destruct r as [| x1 r]; destruct a as [| y1 a]; try discriminate.
  - rewrite (proj2 (Z.ltb_ge _ _)) by (cbn [length]; lia).
    cbn [mbind result_bind]. rewrite Hp at 1. rewrite setitem_middle.
    reflexivity.
  - rewrite (proj2 (Z.ltb_lt _ _)) by (cbn [length]; lia).
    rewrite Hp at 1. rewrite getitem_next. cbn [mbind result_bind].
    rewrite getitem_next. cbn [mbind result_bind].
    rewrite Hp at 1. rewrite setitem_middle. reflexivity.
Qed.

Lemma bin_add_inner pr pa r a :
  length pr = length pa → length r = length a →
  for_each (seq (length pr) (length r))
    (bin_add_body (Z.of_nat (length pr + length r) - 1)) (pr ++ r, pa ++ a)
  = Ok (pr ++ (ripple r a).1, pa ++ (ripple r a).2).
Proof.
  revert pr pa a. induction r as [| x r IH]; intros pr pa [| y a] Hp Hr;
    try discriminate; [reflexivity |].
  injection Hr as Hr. cbn [length seq for_each ripple fst snd].
  rewrite bin_add_body_middle by assumption. cbn [mbind result_bind].
  specialize (IH (pr ++ [Z.lxor x y]) (pa ++ [Z.land (hd 0 a) (hd 0 r)]) a).
  rewrite !length_app in IH. cbn [length] in IH.
  rewrite <- !app_assoc in IH. cbn [app] in IH.
  replace (length pr + 1)%nat with (S (length pr)) in IH by lia.
  replace (length pr + S (length r))%nat with (S (length pr) + length r)%nat by lia.
  apply IH; lia.
Qed.

Lemma ripple_length r a :
  length r = length a →
  length (ripple r a).1 = length r ∧ length (ripple r a).2 = length r.
Proof.
  revert a. induction r as [| x r IH]; intros [| y a] H; try discriminate;
    [split; reflexivity |].
  injection H as H. destruct (IH a H) as [H1 H2].
  cbn [ripple fst snd length]. rewrite H1, H2. split; reflexivity.
Qed.

Lemma bit_lxor x y : (x = 0 ∨ x = 1) → (y = 0 ∨ y = 1) → Z.lxor x y = 0 ∨ Z.lxor x y = 1.
Proof. intros [-> | ->] [-> | ->]; auto. Qed.

Lemma bit_land x y : (x = 0 ∨ x = 1) → (y = 0 ∨ y = 1) → Z.land x y = 0 ∨ Z.land x y = 1.
Proof. intros [-> | ->] [-> | ->]; auto. Qed.

Lemma bit_half_adder x y :
  (x = 0 ∨ x = 1) → (y = 0 ∨ y = 1) → Z.lxor x y + 2 * Z.land x y = x + y.
Proof. intros [-> | ->] [-> | ->]; reflexivity. Qed.

Lemma is_bits_hd l : is_bits l → hd 0 l = 0 ∨ hd 0 l = 1.
Proof. destruct 1; simpl; auto. Qed.

Lemma ripple_is_bits r a :
  is_bits r → is_bits a → is_bits (ripple r a).1 ∧ is_bits (ripple r a).2.
Proof.
  intros Hr. revert a. induction Hr as [| x r Hx Hr IH]; intros a Ha.
  - split; constructor.
  - destruct Ha as [| y a Hy Ha]; [split; constructor |].
    destruct (IH a Ha) as [H1 H2]. cbn [ripple fst snd].
    split; constructor; auto using bit_lxor, bit_land, is_bits_hd.
Qed.

(** A pass keeps the sum of the two values, up to the carry that leaves
    the most-significant position. *)
Lemma ripple_value r a :
  is_bits r → is_bits a → length r = length a →
  bits_value (ripple r a).1 + bits_value (ripple r a).2
  = bits_value r + bits_value a
    - 2 ^ Z.of_nat (length r) * Z.land (hd 0 r) (hd 0 a).
Proof.
  intros Hr. revert a. induction Hr as [| x r Hx Hr IH]; intros a Ha Hlen.
  - destruct a; [reflexivity | discriminate].
  - destruct Ha as [| y a Hy Ha]; [discriminate |]. injection Hlen as Hlen.
    specialize (IH a Ha Hlen). destruct (ripple_length r a Hlen) as [L1 L2].
    cbn [ripple fst snd bits_value hd length]. rewrite L1, L2, <- Hlen.
    rewrite Nat2Z.inj_succ, Z.pow_succ_r by lia.
    rewrite (Z.land_comm (hd 0 a) (hd 0 r)).
    pose proof (bit_half_adder x y Hx Hy).
    set (P := 2 ^ Z.of_nat (length r)) in *. nia.
Qed.

Lemma hd_nth (l : list Z) : hd 0 l = nth 0 l 0.
Proof. destruct l; reflexivity. Qed.

(** After a pass, the addend at position [k] is the carry out of position
    [k + 1]. *)
Lemma ripple_nth r a k :
  length r = length a →
  nth k (ripple r a).2 0 = Z.land (nth (S k) a 0) (nth (S k) r 0).
Proof.
  revert a k. induction r as [| x r IH]; intros [| y a] k H; try discriminate.
  - destruct k; reflexivity.
  - injection H as H. cbn [ripple snd]. destruct k as [| k].
    + cbn [nth]. rewrite !hd_nth. reflexivity.
    + cbn [nth]. rewrite IH by assumption. reflexivity.
Qed.

Lemma bits_value_zero l : (∀ k, nth k l 0 = 0) → bits_value l = 0.
Proof.
  induction l as [| x l IH]; intros H; [reflexivity |].
  cbn [bits_value]. rewrite (H O : x = 0), IH; [lia |].
  intros k. apply (H (S k)).
Qed.

Lemma ripples_succ i st :
  ripples (S i) st = ripple (ripples i st).1 (ripples i st).2.
Proof. reflexivity. Qed.

Lemma ripples_invariant i r a :
  is_bits r → is_bits a → length r = length a →
  is_bits (ripples i (r, a)).1 ∧ is_bits (ripples i (r, a)).2
  ∧ length (ripples i (r, a)).1 = length r
  ∧ length (ripples i (r, a)).2 = length r
  ∧ (bits_value (ripples i (r, a)).1 + bits_value (ripples i (r, a)).2)
      mod 2 ^ Z.of_nat (length r)
    = (bits_value r + bits_value a) mod 2 ^ Z.of_nat (length r)
  ∧ ∀ k, (length r ≤ k + i)%nat → nth k (ripples i (r, a)).2 0 = 0.
Proof.
  intros Hr Ha Hlen. induction i as [| i IH].
  - cbn. repeat split; auto.
    intros k Hk. apply nth_overflow. lia.
  - destruct IH as (B1 & B2 & L1 & L2 & V & N).
    rewrite ripples_succ.
    set (st := ripples i (r, a)) in *.
    assert (L : length st.1 = length st.2) by congruence.
    destruct (ripple_is_bits _ _ B1 B2) as [B1' B2'].
    destruct (ripple_length _ _ L) as [L1' L2'].
    repeat split; auto; try congruence.
    + rewrite ripple_value, L1 by assumption.
      rewrite <- V. rewrite Z.mul_comm.
      unfold Z.sub. rewrite <- Z.mul_opp_l. apply Z.mod_add.
      apply Z.pow_nonzero; lia.
    + intros k Hk. rewrite ripple_nth by assumption.
      rewrite N by lia. apply Z.land_0_l.
Qed.

Lemma bin_add_pass r a :
  length r = length a →
  for_each (range (length r)) (bin_add_body (Z.of_nat (length r) - 1)) (r, a)
  = Ok (ripple r a).
Proof.
  intros Hlen. rewrite (surjective_pairing (ripple r a)).
  exact (bin_add_inner [] [] r a eq_refl Hlen).
Qed.

Lemma bin_add_outer (ks : list nat) n r a :
  length r = n → length a = n →
  for_each ks
    (λ _ st, for_each (range n) (bin_add_body (Z.of_nat n - 1)) st) (r, a)
  = Ok (ripples (length ks) (r, a)).
Proof.
  revert r a. induction ks as [| k ks IH]; intros r a Hr Ha; [reflexivity |].
  cbn [for_each]. rewrite <- Hr at 1 2. rewrite bin_add_pass by congruence.
  cbn [mbind result_bind].
  destruct (ripple_length r a) as [L1 L2]; [congruence |].
  rewrite (surjective_pairing (ripple r a)). rewrite IH by congruence.
  rewrite <- surjective_pairing.
  unfold ripples. cbn [length]. rewrite Nat.iter_succ_r. reflexivity.
Qed.

(** [bin_add] on equally long lists returns the final [res] of the loop. *)
Lemma bin_add_ripples a b :
  length a = length b →
  bin_add a b = Ok (ripples (length a) (int_bool <$> a, int_bool <$> b)).1.
Proof.
  intros Hlen. unfold bin_add. rewrite decide_False by auto.
  rewrite (bin_add_outer _ (length a)) by (rewrite length_fmap; auto).
  cbn [mbind result_bind]. unfold range. rewrite length_seq.
  destruct (ripples _ _). reflexivity.
Qed.

(** After [len(a)] passes the addend is zero and [res] holds the sum
    modulo [2 ** len(a)]. *)
Lemma bin_add_spec a b :
  length a = length b →
  ∃ res, bin_add a b = Ok res ∧ is_bits res ∧ length res = length a
         ∧ bits_value res = (bin_value a + bin_value b) mod 2 ^ Z.of_nat (length a).
Proof.
  intros Hlen. rewrite (bin_add_ripples a b Hlen).
  destruct (ripples_invariant (length a) (int_bool <$> a) (int_bool <$> b))
    as (B1 & B2 & L1 & L2 & V & N);
    [apply is_bits_int_bool | apply is_bits_int_bool
     | rewrite !length_fmap; assumption |].
  rewrite !length_fmap in *.
  eexists; split; [reflexivity |]. repeat split; auto.
  rewrite !bin_value_bits_value, <- V.
  rewrite (bits_value_zero (ripples _ _).2) by (intros k; apply N; lia).
  rewrite Z.add_0_r. symmetry. apply Z.mod_small.
  pose proof (bits_value_bounds _ B1) as Hb. rewrite L1 in Hb. exact Hb.
Qed.

Lemma bin_add_raises a b :
  length a ≠ length b → bin_add a b = Raise ValueError.
Proof. intros H. unfold bin_add. rewrite decide_True by assumption. reflexivity. Qed.

(** ** 32-bit encoders *)

Lemma big_loop_acc n x d :
  binary_int32_big_loop n x d = d ++ binary_int32_big_loop n x [].
Proof.
  revert x d. induction n as [| p IH]; intros x d; cbn [binary_int32_big_loop].
  - rewrite app_nil_r. reflexivity.
  - rewrite IH. rewrite (IH _ ([] ++ _)). rewrite !last_last.
    rewrite <- app_assoc. reflexivity.
Qed.

Lemma big_loop_succ p x :
  binary_int32_big_loop (S p) x []
  = let b := if x >=? 2 ^ Z.of_nat p then 1 else 0 in
    b :: binary_int32_big_loop p (x - b * 2 ^ Z.of_nat p) [].
Proof.
  cbn [binary_int32_big_loop]. rewrite big_loop_acc. reflexivity.
Qed.

Lemma big_loop_spec n x :
  0 ≤ x < 2 ^ Z.of_nat n →
  is_bits (binary_int32_big_loop n x [])
  ∧ length (binary_int32_big_loop n x []) = n
  ∧ bits_value (binary_int32_big_loop n x []) = x.
Proof.
  revert x. induction n as [| p IH]; intros x Hx.
  - simpl in *. repeat split; [constructor | lia].
  - rewrite big_loop_succ. rewrite Nat2Z.inj_succ, Z.pow_succ_r in Hx by lia.
    cbv zeta. destruct (Z.geb_spec x (2 ^ Z.of_nat p)) as [Hge | Hlt].
    + destruct (IH (x - 1 * 2 ^ Z.of_nat p)) as (B & L & V); [lia |].
      repeat split; [constructor; auto | cbn [length]; lia |].
      cbn [bits_value]. rewrite L, V. lia.
    + destruct (IH (x - 0 * 2 ^ Z.of_nat p)) as (B & L & V); [lia |].
      repeat split; [constructor; auto | cbn [length]; lia |].
      cbn [bits_value]. rewrite L, V. lia.
Qed.

Lemma lit_loop_acc n x d :
  binary_int32_lit_loop n x d = d ++ binary_int32_lit_loop n x [].
Proof.
  revert x d. induction n as [| n IH]; intros x d; cbn [binary_int32_lit_loop].
  - rewrite app_nil_r. reflexivity.
  - rewrite IH. rewrite (IH _ ([] ++ _)). rewrite <- app_assoc. reflexivity.
Qed.

Lemma lit_loop_succ n x :
  binary_int32_lit_loop (S n) x [] = x mod 2 :: binary_int32_lit_loop n (x / 2) [].
Proof. cbn [binary_int32_lit_loop]. rewrite lit_loop_acc. reflexivity. Qed.

Lemma lit_loop_spec n x :
  is_bits (binary_int32_lit_loop n x [])
  ∧ length (binary_int32_lit_loop n x []) = n
  ∧ bits_value (reverse (binary_int32_lit_loop n x [])) = x mod 2 ^ Z.of_nat n.
Proof.
  revert x. induction n as [| n IH]; intros x.
  - simpl. rewrite Z.mod_1_r. repeat split. constructor.
  - rewrite lit_loop_succ. destruct (IH (x / 2)) as (B & L & V).
    repeat split.
    + constructor; [| assumption].
      pose proof (Z.mod_pos_bound x 2). lia.
    + cbn [length]. lia.
    + rewrite reverse_cons, bits_value_app, V.
      rewrite Nat2Z.inj_succ, Z.pow_succ_r by lia.
      rewrite Z.rem_mul_r by (try apply Z.pow_nonzero; lia). lia.
Qed.

Lemma is_bits_reverse l : is_bits l → is_bits (reverse l).
Proof. apply Forall_reverse. Qed.

(** Two bit lists of the same length with the same value are equal. *)
Lemma bits_value_inj l1 l2 :
  is_bits l1 → is_bits l2 → length l1 = length l2 →
  bits_value l1 = bits_value l2 → l1 = l2.
Proof.
  intros H1. revert l2. induction H1 as [| x l1 Hx H1 IH]; intros l2 H2 Hlen Hv.
  - destruct l2; [reflexivity | discriminate].
  - destruct H2 as [| y l2 Hy H2]; [discriminate |]. injection Hlen as Hlen.
    cbn [bits_value] in Hv. rewrite <- Hlen in Hv.
    pose proof (bits_value_bounds l1 H1). pose proof (bits_value_bounds l2 H2).
    rewrite <- Hlen in *. set (P := 2 ^ Z.of_nat (length l1)) in *.
    assert (x = y) as -> by (destruct Hx as [-> | ->], Hy as [-> | ->]; lia).
    f_equal. apply IH; auto. lia.
Qed.

Lemma big_digits_spec x :
  0 ≤ x < 2 ^ 32 →
  is_bits (binary_int32_big_digits x)
  ∧ length (binary_int32_big_digits x) = 32%nat
  ∧ bits_value (binary_int32_big_digits x) = x.
Proof. exact (big_loop_spec 32 x). Qed.

Lemma big_digits_reverse_lit x :
  0 ≤ x < 2 ^ 32 →
  reverse (binary_int32_big_digits x) = binary_int32_lit_digits x.
Proof.
  intros Hx. unfold binary_int32_big_digits, binary_int32_lit_digits.
  destruct (big_loop_spec 32 x Hx) as (B & L & V).
  destruct (lit_loop_spec 32 x) as (B' & L' & V').
  rewrite <- (reverse_involutive (binary_int32_lit_loop 32 x [])). f_equal.
  apply bits_value_inj;
    [assumption | apply is_bits_reverse, B' | rewrite length_reverse; congruence |].
  rewrite V, V'. symmetry. apply Z.mod_small. exact Hx.
Qed.

(** ** Joined bit strings *)

Lemma str_bit x : x = 0 ∨ x = 1 → str x = String (bit_char x) EmptyString.
Proof. intros [-> | ->]; reflexivity. Qed.

Lemma join_bits_ascii l :
  is_bits l → String.list_ascii_of_string (join (str <$> l)) = bit_char <$> l.
Proof.
  induction 1 as [| x l Hx _ IH]; [reflexivity |].
  rewrite !fmap_cons. cbn [join foldr]. rewrite str_bit by assumption.
  change (String (bit_char x) EmptyString +:+ ?s) with (String (bit_char x) s).
  cbn [String.list_ascii_of_string]. f_equal. exact IH.
Qed.

Lemma join_bits_string l :
  is_bits l → join (str <$> l) = string_of_list_ascii (bit_char <$> l).
Proof.
  intros H. rewrite <- (join_bits_ascii l H).
  symmetry. apply string_of_list_ascii_of_string.
Qed.

Lemma join_bits_length l : is_bits l → String.length (join (str <$> l)) = length l.
Proof.
  intros H. rewrite join_bits_string by assumption.
  induction l as [| x l IH]; [reflexivity |].
  rewrite fmap_cons. cbn [string_of_list_ascii String.length length].
  rewrite IH; [reflexivity |]. inversion H; assumption.
Qed.

Lemma join_bits_chars l :
  is_bits l → forallb is_bit (String.list_ascii_of_string (join (str <$> l))) = true.
Proof.
  intros H. rewrite join_bits_ascii by assumption.
  induction H as [| x l Hx _ IH]; [reflexivity |].
  rewrite fmap_cons. cbn [forallb]. rewrite IH.
  destruct Hx as [-> | ->]; reflexivity.
Qed.

Lemma join_bits_digits l : is_bits l → digits_of_string (join (str <$> l)) = l.
Proof.
  intros H. unfold digits_of_string. rewrite join_bits_ascii by assumption.
  induction H as [| x l Hx _ IH]; [reflexivity |].
  rewrite !fmap_cons, IH. destruct Hx as [-> | ->]; reflexivity.
Qed.

Lemma join_bits_reverse l :
  is_bits l → string_reverse (join (str <$> l)) = join (str <$> reverse l).
Proof.
  intros H. unfold string_reverse.
  rewrite join_bits_ascii, <- fmap_reverse by assumption.
  symmetry. apply join_bits_string, is_bits_reverse, H.
Qed.

(** C5: for [0 <= x < 2**32], [binary_int32_big(x)] is a string of 32
    characters, each '0' or '1'; its digits, read as a most-significant-
    bit-first bit array, have [bin_value] equal to [x]; and the string
    reversed is [binary_int32_lit(x)]. *)
Theorem binary_int32_big_lit (x : Z) :
  0 ≤ x < 2 ^ 32 →
  String.length (binary_int32_big x) = 32%nat
  ∧ forallb is_bit (String.list_ascii_of_string (binary_int32_big x)) = true
  ∧ bin_value (digits_of_string (binary_int32_big x)) = x
  ∧ string_reverse (binary_int32_big x) = binary_int32_lit x.
Proof.
  intros Hx. unfold binary_int32_big, binary_int32_lit.
  destruct (big_digits_spec x Hx) as (B & L & V).
  rewrite <- (big_digits_reverse_lit x Hx).
  revert B L V. generalize (binary_int32_big_digits x). intros d B L V.
  rewrite (join_bits_length d B), (join_bits_chars d B), (join_bits_digits d B),
    (join_bits_reverse d B), (bin_value_is_bits d B).
  repeat split; assumption.
Qed.

Lemma binary_int32_big_lit_witness :
  String.length (binary_int32_big 913) = 32%nat
  ∧ forallb is_bit (String.list_ascii_of_string (binary_int32_big 913)) = true
  ∧ bin_value (digits_of_string (binary_int32_big 913)) = 913
  ∧ string_reverse (binary_int32_big 913) = binary_int32_lit 913.
Proof. apply (binary_int32_big_lit 913). lia. Defined.

(** ** The adder and the halving, as the specification states them *)

(** C1: on equally long bit arrays (elements taken by truthiness),
    [bin_add] returns a bit array of that length whose [bin_value] is
    [(bin_value(a) + bin_value(b)) % 2**len(a)]; and
    [bin_add([0,1,1,1], [0,1,0,1])] is [[1,1,0,0]], of value 12. *)
Theorem bin_add_correct :
  (∀ a b : list Z,
     length a = length b →
     ∃ res, bin_add a b = Ok res ∧ is_bits res ∧ length res = length a
            ∧ bin_value res = (bin_value a + bin_value b) mod 2 ^ Z.of_nat (length a))
  ∧ bin_add [0; 1; 1; 1] [0; 1; 0; 1] = Ok [1; 1; 0; 0]
  ∧ bin_value [1; 1; 0; 0] = 12.
Proof.
  split; [| split; reflexivity].
  intros a b Hlen. destruct (bin_add_spec a b Hlen) as (res & E & B & L & V).
  exists res. rewrite (bin_value_is_bits res B). auto.
Qed.

Lemma bin_add_correct_witness :
  ∃ res, bin_add [1; 0; 7] [0; 1; 1] = Ok res ∧ is_bits res
         ∧ length res = length [1; 0; 7]
         ∧ bin_value res
           = (bin_value [1; 0; 7] + bin_value [0; 1; 1]) mod 2 ^ Z.of_nat (length [1; 0; 7]).
Proof. apply (proj1 bin_add_correct [1; 0; 7] [0; 1; 1]). reflexivity. Defined.

(** C6: [floor_div_2(a)] has the length of [a], is [a] with a 0 put in
    front and its last element dropped, and its [bin_value] is
    [bin_value(a) // 2]; [floor_div_2([0,1,0,1])] is [[0,0,1,0]]. *)
Theorem floor_div_2_correct :
  (∀ a : list Z,
     length (floor_div_2 a) = length a
     ∧ floor_div_2 a = take (length a) (0 :: removelast a)
     ∧ bin_value (floor_div_2 a) = bin_value a / 2)
  ∧ floor_div_2 [0; 1; 0; 1] = [0; 0; 1; 0].
Proof.
  split; [| reflexivity].
  intros a. split; [apply floor_div_2_length |]. split; [| apply floor_div_2_value].
  destruct a as [| x a _] using rev_ind; [reflexivity |].
  rewrite floor_div_2_snoc, removelast_last, length_app. cbn [length].
  rewrite Nat.add_1_r. cbn [take]. rewrite take_ge; [reflexivity | lia].
Qed.

(** C7: the array [bin_add] returns on equally long inputs, and the array
    [floor_div_2] returns, have the length of the input; [bin_add] returns
    only that array, also when the sum does not fit the width. *)
Theorem fixed_width :
  (∀ a b : list Z,
     length a = length b →
     ∃ res, bin_add a b = Ok res ∧ length res = length a ∧ length res = length b)
  ∧ (∀ a : list Z, length (floor_div_2 a) = length a)
  ∧ bin_add [1; 1] [0; 1] = Ok [0; 0]
  ∧ floor_div_2 [1; 1] = [0; 1].
Proof.
  split; [| split; [exact floor_div_2_length | split; reflexivity]].
  intros a b Hlen. destruct (bin_add_spec a b Hlen) as (res & E & _ & L & _).
  exists res. repeat split; congruence.
Qed.

Lemma fixed_width_witness :
  ∃ res, bin_add [1; 1] [0; 1] = Ok res
         ∧ length res = length [1; 1] ∧ length res = length [0; 1].
Proof. apply (proj1 fixed_width [1; 1] [0; 1]). reflexivity. Defined.

(** ** The digit table *)

Lemma table_digit c :
  is_digit c = true →
  dict_getitem _dec2bin (String c EmptyString) = Ok (nibble (digit_of c)).
Proof.
  destruct c as [[] [] [] [] [] [] [] []]; intros H; try discriminate H;
    vm_compute; reflexivity.
Qed.

Lemma table_not_digit c :
  is_digit c = false →
  dict_getitem _dec2bin (String c EmptyString) = Raise KeyError.
Proof.
  destruct c as [[] [] [] [] [] [] [] []]; intros H; try discriminate H;
    vm_compute; reflexivity.
Qed.

Lemma table_five : dict_getitem _dec2bin "5" = Ok [0; 1; 0; 1].
Proof. vm_compute. reflexivity. Qed.

Lemma table_zero : dict_getitem _dec2bin "0" = Ok [0; 0; 0; 0].
Proof. vm_compute. reflexivity. Qed.

(** ** Decimal digits as 4-bit groups *)

Lemma dec_digit_cases d :
  dec_digit d →
  d = 0 ∨ d = 1 ∨ d = 2 ∨ d = 3 ∨ d = 4 ∨ d = 5 ∨ d = 6 ∨ d = 7 ∨ d = 8 ∨ d = 9.
Proof. unfold dec_digit. lia. Qed.

Ltac each_digit H :=
  apply dec_digit_cases in H;
  repeat (destruct H as [H | H]; [subst |]); [.. | subst].

Lemma nibble_valid d : dec_digit d → valid_bcd (nibble d) ∧ bin_value (nibble d) = d.
Proof.
  intros H. each_digit H; (split; [split; [reflexivity | split] | reflexivity]);
    try (repeat constructor; fail); vm_compute; split; discriminate.
Qed.

Lemma is_bits_cases4 g :
  length g = 4%nat → is_bits g →
  ∃ b3 b2 b1 b0, g = [b3; b2; b1; b0]
    ∧ (b3 = 0 ∨ b3 = 1) ∧ (b2 = 0 ∨ b2 = 1) ∧ (b1 = 0 ∨ b1 = 1) ∧ (b0 = 0 ∨ b0 = 1).
Proof.
  destruct g as [| b3 [| b2 [| b1 [| b0 [| ? ?]]]]]; try discriminate.
  intros _ H. inversion_clear H as [| ? ? H3 H']. inversion_clear H' as [| ? ? H2 H''].
  inversion_clear H'' as [| ? ? H1 H''']. inversion_clear H''' as [| ? ? H0 _].
  eauto 10.
Qed.

Lemma valid_bcd_nibble g : valid_bcd g → g = nibble (bin_value g) ∧ dec_digit (bin_value g).
Proof.
  intros (L & B & V). split; [| exact V].
  destruct (is_bits_cases4 g L B) as (b3 & b2 & b1 & b0 & -> & H3 & H2 & H1 & H0).
  destruct H3 as [-> | ->], H2 as [-> | ->], H1 as [-> | ->], H0 as [-> | ->];
    reflexivity.
Qed.

Lemma floor_div_2_nibble d : dec_digit d → floor_div_2 (nibble d) = nibble (d / 2).
Proof. intros H. each_digit H; reflexivity. Qed.

Lemma getlast_nibble d : getlast (nibble d) = Ok (d mod 2).
Proof. reflexivity. Qed.

Lemma last_nibble d : List.last (nibble d) 0 = d mod 2.
Proof. reflexivity. Qed.

Lemma mod_2_cases d : d mod 2 = 0 ∨ d mod 2 = 1.
Proof. pose proof (Z.mod_pos_bound d 2). lia. Qed.

Lemma bin_add_nibble d p :
  dec_digit d →
  bin_add (nibble (d / 2)) (correction (nibble p)) = Ok (nibble (d / 2 + 5 * (p mod 2))).
Proof.
  intros H. unfold correction. rewrite last_nibble.
  destruct (mod_2_cases p) as [-> | ->]; each_digit H; reflexivity.
Qed.

Lemma removelast_fmap {A B} (f : A → B) (l : list A) :
  removelast (f <$> l) = f <$> removelast l.
Proof.
  induction l as [| x [| y l] IH]; try reflexivity.
  rewrite !fmap_cons in *. cbn [removelast] in *. rewrite IH, fmap_cons. reflexivity.
Qed.

Lemma getlast_fmap_nibble ds :
  ds ≠ [] → getlast (nibble <$> ds) = Ok (nibble (List.last ds 0)).
Proof.
  intros H. unfold getlast. rewrite fmap_last.
  destruct ds as [| d ds _] using rev_ind; [congruence |].
  rewrite last_snoc, last_last. reflexivity.
Qed.

Lemma add_comprehension ds :
  comprehension
    (λ x, xl ← getlast x;
          if truthy xl then dict_getitem _dec2bin "5" else dict_getitem _dec2bin "0")
    (nibble <$> ds)
  = Ok ((λ d, correction (nibble d)) <$> ds).
Proof.
  induction ds as [| d ds IH]; [reflexivity |].
  rewrite !fmap_cons. cbn [comprehension]. rewrite IH, getlast_nibble.
  cbn [mbind result_bind].
  change (correction (nibble d))
    with (if truthy (d mod 2) then [0; 1; 0; 1] else [0; 0; 0; 0]).
  destruct (truthy (d mod 2)); rewrite ?table_five, ?table_zero; reflexivity.
Qed.

Lemma new_comprehension rest d0 :
  Forall dec_digit rest →
  comprehension (λ '(r, a), bin_add r a)
    (zip (nibble <$> ((λ d, d / 2) <$> rest))
         ((λ d, correction (nibble d)) <$> removelast (d0 :: rest)))
  = Ok (nibble <$> halve_from d0 rest).
Proof.
  intros H. revert d0. induction H as [| d1 rest Hd _ IH]; intros d0; [reflexivity |].
  change (removelast (d0 :: d1 :: rest)) with (d0 :: removelast (d1 :: rest)).
  rewrite !fmap_cons. cbn [zip_with comprehension halve_from].
  rewrite bin_add_nibble by assumption. cbn [mbind result_bind].
  rewrite IH, fmap_cons. reflexivity.
Qed.

Lemma floor_div_2_nibbles ds :
  Forall dec_digit ds →
  floor_div_2 <$> (nibble <$> ds) = nibble <$> ((λ d, d / 2) <$> ds).
Proof.
  induction 1 as [| d ds Hd _ IH]; [reflexivity |].
  rewrite !fmap_cons, IH, floor_div_2_nibble by assumption. reflexivity.
Qed.

(** The loop body acts on the decimal digits as [halve_from 0]. *)
Lemma dec2bin_body_digits ds bin :
  Forall dec_digit ds → ds ≠ [] →
  dec2bin_body (nibble <$> ds, bin)
  = Ok (nibble <$> halve_from 0 ds, bin ++ [List.last ds 0 mod 2]).
Proof.
  intros H Hne. unfold dec2bin_body.
  rewrite getlast_fmap_nibble by assumption. cbn [mbind result_bind].
  rewrite getlast_nibble. cbn [mbind result_bind].
  rewrite removelast_fmap, add_comprehension. cbn [mbind result_bind].
  rewrite floor_div_2_nibbles by assumption.
  destruct ds as [| d0 rest]; [congruence |]. inversion_clear H as [| ? ? H0 Hrest].
  rewrite !fmap_cons. cbn [drop take]. rewrite take_0, drop_0.
  rewrite new_comprehension by assumption. cbn [mbind result_bind halve_from].
  rewrite fmap_cons.
  change (0 mod 2) with 0. rewrite Z.mul_0_r, Z.add_0_r. reflexivity.
Qed.

(** ** Halving a decimal numeral *)

Lemma halve_from_length p ds : length (halve_from p ds) = length ds.
Proof.
  revert p. induction ds as [| d ds IH]; intros p; [reflexivity |].
  cbn [halve_from length]. rewrite IH. reflexivity.
Qed.

Lemma last_cons_default (d p : Z) ds : List.last (d :: ds) p = List.last ds d.
Proof.
  revert d p. induction ds as [| e ds IH]; intros d p; [reflexivity |].
  change (List.last (d :: e :: ds) p) with (List.last (e :: ds) p).
  rewrite (IH e p), (IH e d). reflexivity.
Qed.

Lemma halve_from_value p ds :
  2 * digits_value (halve_from p ds) + List.last ds p mod 2
  = (p mod 2) * 10 ^ Z.of_nat (length ds) + digits_value ds.
Proof.
  revert p. induction ds as [| d ds IH]; intros p.
  - cbn. lia.
  - cbn [halve_from digits_value length]. rewrite halve_from_length.
    rewrite last_cons_default.
    specialize (IH d). rewrite Nat2Z.inj_succ, Z.pow_succ_r by lia.
    pose proof (Z.div_mod d 2 ltac:(lia)).
    set (P := 10 ^ Z.of_nat (length ds)) in *. nia.
Qed.

Lemma halve_from_digit p ds :
  Forall dec_digit ds → Forall dec_digit (halve_from p ds).
Proof.
  intros H. revert p. induction H as [| d ds Hd _ IH]; intros p; constructor; auto.
  unfold dec_digit in *. pose proof (mod_2_cases p).
  pose proof (Z.div_mod d 2 ltac:(lia)). pose proof (Z.mod_pos_bound d 2). lia.
Qed.

Lemma digits_value_bounds ds :
  Forall dec_digit ds → 0 ≤ digits_value ds < 10 ^ Z.of_nat (length ds).
Proof.
  induction 1 as [| d ds Hd _ IH]; cbn [digits_value length]; [simpl; lia |].
  rewrite Nat2Z.inj_succ, Z.pow_succ_r by lia. unfold dec_digit in Hd.
  set (P := 10 ^ Z.of_nat (length ds)) in *. nia.
Qed.

Lemma np_any_nibbles ds :
  Forall dec_digit ds → np_any (nibble <$> ds) = negb (digits_value ds =? 0).
Proof.
  induction 1 as [| d ds Hd Hds IH]; [reflexivity |].
  rewrite fmap_cons. unfold np_any in *. cbn [existsb digits_value]. rewrite IH.
  pose proof (digits_value_bounds ds Hds) as Hb.
  assert (0 < 10 ^ Z.of_nat (length ds)) by (apply Z.pow_pos_nonneg; lia).
  destruct (Z.eqb_spec (digits_value ds) 0) as [E | E].
  - rewrite E, Z.add_0_r. each_digit Hd; cbn [negb orb];
      rewrite ?Z.mul_0_l; try reflexivity;
      (rewrite (proj2 (Z.eqb_neq _ 0)) by lia); reflexivity.
  - cbn [negb]. rewrite orb_true_r. symmetry. apply negb_true_iff, Z.eqb_neq.
    unfold dec_digit in Hd. nia.
Qed.

(** ** The loop of [dec2bin] *)

Lemma dec2bin_loop_digits k :
  ∀ fuel ds bin,
    Forall dec_digit ds → digits_value ds < 2 ^ Z.of_nat k → (k < fuel)%nat →
    ∃ rem bs,
      dec2bin_loop fuel (nibble <$> ds, bin) = Some (Ok (rem, bin ++ bs))
      ∧ np_any rem = false ∧ length rem = length ds
      ∧ is_bits bs ∧ bits_value (reverse bs) = digits_value ds.
Proof.
  induction k as [| k IH]; intros fuel ds bin Hds Hlt Hfuel;
    (destruct fuel as [| fuel]; [lia |]); cbn [dec2bin_loop fst];
    pose proof (digits_value_bounds ds Hds) as Hb;
    rewrite (np_any_nibbles ds Hds);
    destruct (Z.eqb_spec (digits_value ds) 0) as [E | E]; cbn [negb].
  - exists (nibble <$> ds), []. rewrite app_nil_r, np_any_nibbles, E, length_fmap by assumption.
    repeat split. constructor.
  - change (2 ^ Z.of_nat 0) with 1 in Hlt. lia.
  - exists (nibble <$> ds), []. rewrite app_nil_r, np_any_nibbles, E, length_fmap by assumption.
    repeat split. constructor.
  - assert (ds ≠ []) as Hne by (intros ->; apply E; reflexivity).
    rewrite dec2bin_body_digits by assumption.
    pose proof (halve_from_value 0 ds) as Hv. change (0 mod 2) with 0 in Hv.
    rewrite Z.mul_0_l, Z.add_0_l in Hv.
    pose proof (mod_2_cases (List.last ds 0)) as Hbit.
    rewrite Nat2Z.inj_succ, Z.pow_succ_r in Hlt by lia.
    destruct (IH fuel (halve_from 0 ds) (bin ++ [List.last ds 0 mod 2]))
      as (rem & bs & E1 & E2 & E3 & E4 & E5);
      [apply halve_from_digit, Hds | lia | lia |].
    exists rem, (List.last ds 0 mod 2 :: bs).
    rewrite E1, <- app_assoc. cbn [app].
    rewrite E3, halve_from_length, reverse_cons, bits_value_app, E5.
    repeat split; auto. constructor; assumption.
Qed.

(** ** Decimal strings *)

Lemma is_digit_digit_of c : is_digit c = true → dec_digit (digit_of c).
Proof.
  unfold is_digit, dec_digit, digit_of. intros H.
  apply andb_true_iff in H as [H1 H2].
  apply Nat.leb_le in H1, H2. lia.
Qed.

Lemma dec2bin_array_digits s :
  is_digit_string s = true →
  dec2bin_array s = Ok (nibble <$> (digit_of <$> String.list_ascii_of_string s))
  ∧ Forall dec_digit (digit_of <$> String.list_ascii_of_string s).
Proof.
  unfold is_digit_string, dec2bin_array, chars.
  induction (String.list_ascii_of_string s) as [| c cs IH]; intros H.
  - split; [reflexivity | constructor].
  - cbn [forallb] in H. apply andb_true_iff in H as [Hc Hcs].
    destruct (IH Hcs) as [E F]. rewrite !fmap_cons. cbn [comprehension].
    rewrite table_digit, E by assumption.
    split; [reflexivity | constructor; auto using is_digit_digit_of].
Qed.

Lemma dec2bin_array_not_digits s :
  is_digit_string s = false → dec2bin_array s = Raise KeyError.
Proof.
  unfold is_digit_string, dec2bin_array, chars.
  induction (String.list_ascii_of_string s) as [| c cs IH]; intros H;
    [discriminate |].
  cbn [forallb] in H. rewrite fmap_cons. cbn [comprehension].
  destruct (is_digit c) eqn:Hc.
  - rewrite table_digit by assumption. cbn [mbind result_bind].
    rewrite IH by exact H. reflexivity.
  - rewrite table_not_digit by assumption. reflexivity.
Qed.

Lemma dec_value_fold cs acc :
  fold_left (λ acc c, 10 * acc + digit_of c) cs acc
  = acc * 10 ^ Z.of_nat (length cs) + digits_value (digit_of <$> cs).
Proof.
  revert acc. induction cs as [| c cs IH]; intros acc.
  - cbn. lia.
  - rewrite fmap_cons. cbn [fold_left digits_value length].
    rewrite IH, length_fmap, Nat2Z.inj_succ, Z.pow_succ_r by lia. lia.
Qed.

Lemma dec_value_digits s :
  dec_value s = digits_value (digit_of <$> String.list_ascii_of_string s).
Proof. unfold dec_value. rewrite dec_value_fold. lia. Qed.

Lemma bin_value_fold_chars l acc :
  is_bits l →
  fold_left (λ acc c, 2 * acc + digit_of c) (bit_char <$> l) acc
  = acc * 2 ^ Z.of_nat (length l) + bits_value l.
Proof.
  intros H. revert acc. induction H as [| x l Hx _ IH]; intros acc.
  - cbn. lia.
  - rewrite fmap_cons. cbn [fold_left bits_value length].
    rewrite IH, Nat2Z.inj_succ, Z.pow_succ_r by lia.
    destruct Hx as [-> | ->]; change (digit_of (bit_char 0)) with 0;
      change (digit_of (bit_char 1)) with 1; lia.
Qed.

Lemma int_base2_bits l :
  is_bits l → l ≠ [] → int_base2 ("0b" +:+ join (str <$> l)) = Ok (bits_value l).
Proof.
  intros H Hne. unfold int_base2.
  change ("0b" +:+ join (str <$> l))
    with (String "0" (String "b" (join (str <$> l)))).
  cbv iota beta. rewrite join_bits_ascii by assumption.
  pose proof (join_bits_chars l H) as Hc. rewrite join_bits_ascii in Hc by assumption.
  rewrite Hc, bin_value_fold_chars by assumption.
  rewrite bool_decide_eq_false_2 by (destruct l; [congruence | discriminate]).
  cbn [negb andb]. f_equal.
Qed.

Lemma length_list_ascii s :
  length (String.list_ascii_of_string s) = String.length s.
Proof. induction s as [| c s IH]; [reflexivity |]. cbn. rewrite IH. reflexivity. Qed.

(** ** [dec2bin] on decimal digit strings *)

Lemma dec2bin_digits s fuel :
  is_digit_string s = true → (4 * String.length s < fuel)%nat →
  ∃ rem rem' bs,
    dec2bin_array s = Ok rem
    ∧ dec2bin_loop fuel (rem, []) = Some (Ok (rem', bs))
    ∧ np_any rem' = false
    ∧ is_bits bs ∧ bits_value (reverse bs) = dec_value s
    ∧ dec2bin fuel s = Some (Ok ("0b" +:+ join (str <$> reverse bs))).
Proof.
  intros Hs Hfuel. destruct (dec2bin_array_digits s Hs) as [E F].
  set (ds := digit_of <$> String.list_ascii_of_string s) in *.
  pose proof (digits_value_bounds ds F) as Hb.
  assert (length ds = String.length s) as Hlen
    by (unfold ds; rewrite length_fmap; apply length_list_ascii).
  assert (digits_value ds < 2 ^ Z.of_nat (4 * String.length s)) as Hlt.
  { rewrite Nat2Z.inj_mul, Z.pow_mul_r by lia. change (2 ^ Z.of_nat 4) with 16.
    rewrite <- Hlen. eapply Z.lt_le_trans; [apply Hb |].
    apply Z.pow_le_mono_l. lia. }
  destruct (dec2bin_loop_digits _ fuel ds [] F Hlt Hfuel)
    as (rem' & bs & E1 & E2 & E3 & E4 & E5).
  exists (nibble <$> ds), rem', bs. cbn [app] in E1.
  unfold dec2bin. rewrite E, E1, dec_value_digits. auto 10.
Qed.

Lemma dec2bin_loop_no_raise fuel :
  ∀ ds bin e, Forall dec_digit ds →
    dec2bin_loop fuel (nibble <$> ds, bin) ≠ Some (Raise e).
Proof.
  induction fuel as [| fuel IH]; intros ds bin e Hds; [discriminate |].
  cbn [dec2bin_loop fst]. destruct (np_any (nibble <$> ds)) eqn:Hany; [| discriminate].
  assert (ds ≠ []) as Hne by (intros ->; discriminate).
  rewrite dec2bin_body_digits by assumption. apply IH, halve_from_digit, Hds.
Qed.

Lemma dec2bin_raises fuel s e : dec2bin fuel s = Some (Raise e) → e = KeyError.
Proof.
  unfold dec2bin. destruct (is_digit_string s) eqn:Hs.
  - destruct (dec2bin_array_digits s Hs) as [E F]. rewrite E.
    destruct (dec2bin_loop fuel _) as [[[rem bin] | e'] |] eqn:El; try discriminate.
    exfalso. exact (dec2bin_loop_no_raise _ _ _ _ F El).
  - rewrite (dec2bin_array_not_digits s Hs). congruence.
Qed.

Lemma halve_from_lookup_S ds :
  ∀ p i di dj,
    ds !! i = Some di → ds !! S i = Some dj →
    halve_from p ds !! S i = Some (dj / 2 + 5 * (di mod 2)).
Proof.
  induction ds as [| d ds IH]; intros p i di dj Hi Hj; [discriminate |].
  cbn [halve_from]. destruct i as [| i].
  - injection Hi as ->. destruct ds as [| d' ds]; [discriminate |].
    injection Hj as ->. reflexivity.
  - exact (IH d i di dj Hi Hj).
Qed.

Lemma valid_bcd_digits rem :
  Forall valid_bcd rem →
  rem = nibble <$> (bin_value <$> rem) ∧ Forall dec_digit (bin_value <$> rem).
Proof.
  induction 1 as [| g rem Hg _ [IH1 IH2]]; [split; [reflexivity | constructor] |].
  destruct (valid_bcd_nibble g Hg) as [E D]. rewrite !fmap_cons.
  split; [f_equal; assumption | constructor; assumption].
Qed.

Lemma nibbles_valid ds : Forall dec_digit ds → Forall valid_bcd (nibble <$> ds).
Proof.
  induction 1 as [| d ds Hd _ IH]; [constructor |].
  rewrite fmap_cons. constructor; [apply nibble_valid, Hd | exact IH].
Qed.

(** A result reached with some fuel is reached with any larger fuel. *)
Lemma dec2bin_loop_mono fuel :
  ∀ st r fuel', dec2bin_loop fuel st = Some r → (fuel ≤ fuel')%nat →
                dec2bin_loop fuel' st = Some r.
Proof.
  induction fuel as [| fuel IH]; intros st r fuel' H Hle; [discriminate |].
  destruct fuel' as [| fuel']; [lia |]. cbn [dec2bin_loop] in *.
  destruct (np_any st.1); [| exact H].
  destruct (dec2bin_body st) as [st' | e]; [| exact H].
  apply IH; [exact H | lia].
Qed.

Lemma dec2bin_mono fuel fuel' s r :
  dec2bin fuel s = Some r → (fuel ≤ fuel')%nat → dec2bin fuel' s = Some r.
Proof.
  unfold dec2bin. destruct (dec2bin_array s) as [rem | e]; [| auto].
  destruct (dec2bin_loop fuel (rem, [])) as [r0 |] eqn:E; [| discriminate].
  intros H Hle. rewrite (dec2bin_loop_mono _ _ _ _ E Hle). exact H.
Qed.

(** ** The converter, as the specification states it *)

(** C9: on every decimal digit string the loop of [dec2bin] terminates:
    with fuel for more than [4 * len(s)] evaluations of its condition it
    ends in a state where [np.any(rem)] is false, and [dec2bin] returns
    ["0b"] followed by the collected bits, reversed and joined. *)
Theorem dec2bin_terminates (s : string) :
  is_digit_string s = true →
  ∃ rem, dec2bin_array s = Ok rem
  ∧ ∀ fuel, (4 * String.length s < fuel)%nat →
      ∃ rem' bin,
        dec2bin_loop fuel (rem, []) = Some (Ok (rem', bin))
        ∧ np_any rem' = false
        ∧ dec2bin fuel s = Some (Ok ("0b" +:+ join (str <$> reverse bin))).
Proof.
  intros Hs. destruct (dec2bin_array_digits s Hs) as [E _].
  eexists; split; [exact E |]. intros fuel Hfuel.
  destruct (dec2bin_digits s fuel Hs Hfuel) as (rem & rem' & bs & E0 & E1 & E2 & _ & _ & E3).
  rewrite E in E0. injection E0 as <-. eauto.
Qed.

Lemma dec2bin_terminates_witness :
  ∃ rem, dec2bin_array "913" = Ok rem
  ∧ ∀ fuel, (4 * String.length "913" < fuel)%nat →
      ∃ rem' bin,
        dec2bin_loop fuel (rem, []) = Some (Ok (rem', bin))
        ∧ np_any rem' = false
        ∧ dec2bin fuel "913" = Some (Ok ("0b" +:+ join (str <$> reverse bin))).
Proof. apply (dec2bin_terminates "913"). reflexivity. Defined.

(** Round trip on the digit strings of positive integers. *)
Lemma dec2bin_round_trip_positive s fuel :
  is_digit_string s = true → 0 < dec_value s → (4 * String.length s < fuel)%nat →
  ∃ out, dec2bin fuel s = Some (Ok out) ∧ int_base2 out = Ok (dec_value s).
Proof.
  intros Hs Hpos Hfuel.
  destruct (dec2bin_digits s fuel Hs Hfuel) as (rem & rem' & bs & _ & _ & _ & B & V & E).
  eexists; split; [exact E |].
  rewrite int_base2_bits, V; [reflexivity | apply is_bits_reverse, B |].
  intros Hnil. rewrite Hnil in V. cbn in V. lia.
Qed.

(** C2: at the digit string ["0"], which represents 0, [dec2bin] returns
    ["0b"], and [int("0b", 2)] raises [ValueError] instead of returning 0;
    ["913"] converts to ["0b1110010001"], which [int(_, 2)] reads back as
    913. *)
Theorem dec2bin_zero_no_round_trip :
  is_digit_string "0" = true ∧ dec_value "0" = 0
  ∧ (∀ fuel, dec2bin (S fuel) "0" = Some (Ok "0b"%string))
  ∧ int_base2 "0b" = Raise ValueError
  ∧ (∀ fuel, (11 ≤ fuel)%nat → dec2bin fuel "913" = Some (Ok "0b1110010001"%string))
  ∧ int_base2 "0b1110010001" = Ok 913.
Proof.
  split; [reflexivity |]. split; [reflexivity |]. split; [intros fuel; reflexivity |].
  split; [reflexivity |]. split; [| vm_compute; reflexivity].
  intros fuel Hfuel. apply (dec2bin_mono 11); [vm_compute; reflexivity | exact Hfuel].
Qed.

Lemma dec2bin_zero_no_round_trip_witness :
  dec2bin 13 "913" = Some (Ok "0b1110010001"%string).
Proof.
  apply (proj1 (proj2 (proj2 (proj2 (proj2 dec2bin_zero_no_round_trip)))) 13%nat).
  lia.
Defined.

(** C10: on a digit string made only of '0' characters the loop body never
    runs (the first evaluation of the condition ends the loop with no bit
    collected), and [dec2bin] returns exactly ["0b"]. *)
Theorem dec2bin_all_zeros (s : string) :
  forallb (λ c, Ascii.eqb c "0") (String.list_ascii_of_string s) = true →
  ∃ rem, dec2bin_array s = Ok rem
  ∧ ∀ fuel, dec2bin_loop (S fuel) (rem, []) = Some (Ok (rem, []))
            ∧ dec2bin (S fuel) s = Some (Ok "0b"%string).
Proof.
  intros Hz.
  assert (is_digit_string s = true ∧
          digits_value (digit_of <$> String.list_ascii_of_string s) = 0) as [Hs Hv].
  { unfold is_digit_string. induction (String.list_ascii_of_string s) as [| c cs IH];
      [split; reflexivity |].
    cbn [forallb] in Hz. apply andb_true_iff in Hz as [Hc Hcs].
    apply Ascii.eqb_eq in Hc as ->. destruct (IH Hcs) as [IH1 IH2].
    rewrite fmap_cons. cbn [forallb digits_value]. rewrite IH1, IH2.
    split; [reflexivity |]. change (digit_of "0") with 0. lia. }
  destruct (dec2bin_array_digits s Hs) as [E F].
  eexists; split; [exact E |]. intros fuel.
  unfold dec2bin. rewrite E. cbn [dec2bin_loop fst].
  rewrite (np_any_nibbles _ F), Hv. split; reflexivity.
Qed.

Lemma dec2bin_all_zeros_witness :
  ∃ rem, dec2bin_array "000" = Ok rem
  ∧ ∀ fuel, dec2bin_loop (S fuel) (rem, []) = Some (Ok (rem, []))
            ∧ dec2bin (S fuel) "000" = Some (Ok "0b"%string).
Proof. apply (dec2bin_all_zeros "000"). reflexivity. Defined.

(** ** Errors *)

Lemma get_dec2bin_dict_ok : get_dec2bin_dict = Ok _dec2bin.
Proof. vm_compute. reflexivity. Qed.

Lemma dec2bin_array_raises s e : dec2bin_array s = Raise e → e = KeyError.
Proof.
  destruct (is_digit_string s) eqn:Hs.
  - destruct (dec2bin_array_digits s Hs) as [E _]. rewrite E. discriminate.
  - rewrite (dec2bin_array_not_digits s Hs). congruence.
Qed.

(** C3: [bin_add] raises exactly when the lengths differ, and what it
    raises is [ValueError]; [bin_add([0,1], [0,0,1])] raises it.  No other
    function raises [ValueError]: building the digit table succeeds, and
    [dec2bin_array] and [dec2bin] can fail only with the [KeyError] of a
    table lookup ([binary_int32_big], [binary_int32_lit], [bin_value] and
    [floor_div_2] have no failing operation at all). *)
Theorem bin_add_only_error :
  (∀ a b e, bin_add a b = Raise e ↔ e = ValueError ∧ length a ≠ length b)
  ∧ bin_add [0; 1] [0; 0; 1] = Raise ValueError
  ∧ get_dec2bin_dict = Ok _dec2bin
  ∧ (∀ s, dec2bin_array s ≠ Raise ValueError)
  ∧ (∀ fuel s, dec2bin fuel s ≠ Some (Raise ValueError)).
Proof.
  split; [| split; [reflexivity | split; [exact get_dec2bin_dict_ok | split]]].
  - intros a b e. split.
    + intros H. destruct (decide (length a = length b)) as [Hlen | Hlen].
      * destruct (bin_add_spec a b Hlen) as (res & E & _). congruence.
      * rewrite (bin_add_raises a b Hlen) in H. split; congruence.
    + intros [-> Hlen]. apply bin_add_raises, Hlen.
  - intros s H. apply dec2bin_array_raises in H. discriminate.
  - intros fuel s H. apply dec2bin_raises in H. discriminate.
Qed.

Lemma bin_add_only_error_witness : bin_add [0; 1] [0; 0; 1] = Raise ValueError.
Proof.
  apply (proj2 (proj1 bin_add_only_error [0; 1] [0; 0; 1] ValueError)).
  split; [reflexivity | cbn; lia].
Defined.

(** ** The correction step *)

(** C4, as the loop performs it: from a non-empty state of valid BCD
    groups the body appends the last bit of the last group, shifts every
    group, and adds 5 to every group but the first exactly when the bit
    shifted out of the group before it was 1; all groups are valid BCD
    digits afterwards. *)
Theorem dec2bin_body_correction (rem : list (list Z)) (bin : list Z) :
  rem ≠ [] → Forall valid_bcd rem →
  ∃ rem' b,
    dec2bin_body (rem, bin) = Ok (rem', bin ++ [b])
    ∧ (∃ g, last rem = Some g ∧ last g = Some b)
    ∧ length rem' = length rem
    ∧ correction_from_previous rem rem'
    ∧ Forall valid_bcd rem'.
Proof.
  intros Hne Hv. destruct (valid_bcd_digits rem Hv) as [E D].
  set (ds := bin_value <$> rem) in *.
  assert (ds ≠ []) as Hds by (intros Hnil; rewrite Hnil in E; exact (Hne E)).
  exists (nibble <$> halve_from 0 ds), (List.last ds 0 mod 2).
  split; [rewrite E at 1; apply dec2bin_body_digits; assumption |].
  split.
  { exists (nibble (List.last ds 0)). split; [| reflexivity].
    rewrite E, fmap_last. clear -Hds.
    destruct ds as [| d ds _] using rev_ind; [congruence |].
    rewrite last_snoc, last_last. reflexivity. }
  split; [rewrite length_fmap, halve_from_length; unfold ds; apply length_fmap |].
  split; [| apply nibbles_valid, halve_from_digit, D].
  assert (Hlook : ∀ i g, rem !! i = Some g →
            ∃ d, ds !! i = Some d ∧ dec_digit d ∧ g = nibble d ∧ bin_value g = d).
  { intros i g Hg. exists (bin_value g).
    assert (ds !! i = Some (bin_value g)) as Hd
      by (unfold ds; rewrite list_lookup_fmap, Hg; reflexivity).
    assert (valid_bcd g) as Hvg by (eapply Forall_lookup_1; eassumption).
    destruct (valid_bcd_nibble g Hvg) as [Eg Dg]. auto. }
  split.
  - intros g Hg. destruct (Hlook _ _ Hg) as (d & Hd & Dd & -> & _).
    rewrite list_lookup_fmap. destruct ds as [| d0 rest]; [discriminate |].
    injection Hd as ->. cbn [halve_from]. change (0 mod 2) with 0.
    rewrite Z.mul_0_r, Z.add_0_r, floor_div_2_nibble by assumption. reflexivity.
  - intros i p g Hp Hg.
    destruct (Hlook _ _ Hp) as (dp & Hdp & Ddp & -> & Vp).
    destruct (Hlook _ _ Hg) as (dg & Hdg & Ddg & -> & Vg).
    exists (nibble (dg / 2 + 5 * (dp mod 2))).
    rewrite list_lookup_fmap, (halve_from_lookup_S ds 0 i dp dg Hdp Hdg).
    split; [reflexivity |]. rewrite Vg, last_nibble.
    assert (dec_digit (dg / 2 + 5 * (dp mod 2))) as Hnew.
    { unfold dec_digit in *. pose proof (mod_2_cases dp).
      pose proof (Z.div_mod dg 2 ltac:(lia)). pose proof (Z.mod_pos_bound dg 2). lia. }
    rewrite (proj2 (nibble_valid _ Hnew)).
    destruct (mod_2_cases dp) as [-> | ->]; reflexivity.
Qed.

Lemma dec2bin_body_correction_witness :
  ∃ rem' b,
    dec2bin_body ([[0; 0; 0; 1]; [0; 0; 0; 0]], []) = Ok (rem', [] ++ [b])
    ∧ (∃ g, last [[0; 0; 0; 1]; [0; 0; 0; 0]] = Some g ∧ last g = Some b)
    ∧ length rem' = length [[0; 0; 0; 1]; [0; 0; 0; 0]]
    ∧ correction_from_previous [[0; 0; 0; 1]; [0; 0; 0; 0]] rem'
    ∧ Forall valid_bcd rem'.
Proof.
  apply (dec2bin_body_correction [[0; 0; 0; 1]; [0; 0; 0; 0]] []).
  - discriminate.
  - repeat constructor; vm_compute; discriminate.
Defined.

(** C4, read literally, fails on the state of the digit string ["10"]: the
    body leaves the first group at 0 although the bit shifted out of it
    was 1, and it is the last group that takes the 5. *)
Lemma correction_from_own_bit_fails :
  dec2bin_array "10" = Ok [[0; 0; 0; 1]; [0; 0; 0; 0]]
  ∧ dec2bin_body ([[0; 0; 0; 1]; [0; 0; 0; 0]], [])
    = Ok ([[0; 0; 0; 0]; [0; 1; 0; 1]], [0])
  ∧ ¬ correction_from_own_bit
        [[0; 0; 0; 1]; [0; 0; 0; 0]] [[0; 0; 0; 0]; [0; 1; 0; 1]].
Proof.
  split; [vm_compute; reflexivity |]. split; [vm_compute; reflexivity |].
  intros H. destruct (H 0%nat [0; 0; 0; 1] eq_refl) as (g' & Hg' & Hval).
  injection Hg' as <-. vm_compute in Hval. discriminate.
Qed.

(** ** The demonstration script *)

(** C8: the import statement of [examples/binary_example.py] asks for
    [bin_add_4], which [goph419/binary.py] does not bind, so the script
    stops with [ImportError] before [main] runs, whatever [main] does. *)
Theorem binary_example_import_fails :
  ¬ ("bin_add_4"%string ∈ binary_module_names)
  ∧ "bin_add_4"%string ∈ binary_example_imports
  ∧ ∀ main, binary_example main = Raise ImportError.
Proof.
  split; [| split].
  - intros H. apply list_elem_of_In in H. cbn in H.
    repeat (destruct H as [H | H]; [discriminate H |]). exact H.
  - apply list_elem_of_In. left. reflexivity.
  - intros main. reflexivity.
Qed.

(** * Further properties of the library *)

(** ** [bin_value] *)

Lemma bits_value_concat l1 l2 :
  bits_value (l1 ++ l2) = bits_value l1 * 2 ^ Z.of_nat (length l2) + bits_value l2.
Proof.
  induction l1 as [| x l1 IH]; [cbn; lia |].
  cbn [app bits_value]. rewrite IH, length_app, Nat2Z.inj_add, Z.pow_add_r by lia.
  lia.
Qed.

Lemma bin_value_bounds a : 0 ≤ bin_value a < 2 ^ Z.of_nat (length a).
Proof.
  rewrite bin_value_bits_value, <- (length_fmap int_bool a).
  apply bits_value_bounds, is_bits_int_bool.
Qed.

(** X1: whatever the elements of the list are, [bin_value] lies in
    [0, 2**len(a))]; in particular it is 0 on the empty list. *)
Theorem bin_value_range (a : list Z) :
  0 ≤ bin_value a < 2 ^ Z.of_nat (length a) ∧ (a = [] → bin_value a = 0).
Proof. split; [apply bin_value_bounds | intros ->; reflexivity]. Qed.

Lemma bin_value_range_witness : bin_value [] = 0.
Proof. apply (proj2 (bin_value_range [])). reflexivity. Defined.

(** X2: the value of a concatenation is the value of the front part shifted
    by the length of the back part, plus the value of the back part. *)
Theorem bin_value_concat (a b : list Z) :
  bin_value (a ++ b) = bin_value a * 2 ^ Z.of_nat (length b) + bin_value b.
Proof.
  rewrite !bin_value_bits_value, fmap_app, bits_value_concat, length_fmap.
  reflexivity.
Qed.

Lemma bin_value_truthiness_inj a b :
  length a = length b →
  bin_value a = bin_value b → int_bool <$> a = int_bool <$> b.
Proof.
  intros Hlen. rewrite !bin_value_bits_value.
  intros Hv. apply bits_value_inj; auto using is_bits_int_bool.
  rewrite !length_fmap. exact Hlen.
Qed.

(** X3: two lists of the same length have the same [bin_value] exactly when
    their elements have the same truthiness position by position. *)
Theorem bin_value_same_truthiness (a b : list Z) :
  length a = length b →
  bin_value a = bin_value b ↔ int_bool <$> a = int_bool <$> b.
Proof.
  intros Hlen. split; [apply bin_value_truthiness_inj, Hlen |].
  rewrite !bin_value_bits_value. intros ->. reflexivity.
Qed.

Lemma bin_value_same_truthiness_witness :
  bin_value [0; 3; 0] = bin_value [0; 1; 0]
  ↔ int_bool <$> [0; 3; 0] = int_bool <$> [0; 1; 0].
Proof. apply (bin_value_same_truthiness [0; 3; 0] [0; 1; 0]). reflexivity. Defined.

(** ** Algebra of [bin_add] *)

(** A bit list with the right length and value is the result of [bin_add]. *)
Lemma bin_add_unique a b res :
  length a = length b → is_bits res → length res = length a →
  bits_value res = (bin_value a + bin_value b) mod 2 ^ Z.of_nat (length a) →
  bin_add a b = Ok res.
Proof.
  intros Hlen B L V. destruct (bin_add_spec a b Hlen) as (res' & E & B' & L' & V').
  rewrite E. f_equal. apply bits_value_inj; congruence.
Qed.

(** X4: [bin_add] is commutative on equally long lists. *)
Theorem bin_add_comm (a b : list Z) :
  length a = length b → bin_add a b = bin_add b a.
Proof.
  intros Hlen. destruct (bin_add_spec b a (eq_sym Hlen)) as (res & E & B & L & V).
  rewrite E. apply bin_add_unique; try congruence.
  rewrite V, Hlen, Z.add_comm. reflexivity.
Qed.

Lemma bin_add_comm_witness : bin_add [1; 0; 1] [0; 1; 1] = bin_add [0; 1; 1] [1; 0; 1].
Proof. apply (bin_add_comm [1; 0; 1] [0; 1; 1]). reflexivity. Defined.

(** X5: [bin_add] is associative on equally long lists: adding [c] to
    [bin_add(a, b)] gives what adding [a] to [bin_add(b, c)] gives. *)
Theorem bin_add_assoc (a b c : list Z) :
  length a = length b → length b = length c →
  (r ← bin_add a b; bin_add r c) = (r ← bin_add b c; bin_add a r).
Proof.
  intros Hab Hbc.
  destruct (bin_add_spec a b Hab) as (r1 & E1 & B1 & L1 & V1).
  destruct (bin_add_spec b c Hbc) as (r2 & E2 & B2 & L2 & V2).
  rewrite E1, E2. cbn [mbind result_bind].
  destruct (bin_add_spec a r2) as (res & E & B & L & V); [congruence |].
  rewrite E. apply bin_add_unique; try congruence.
  rewrite V, L1, (bin_value_is_bits r1 B1), (bin_value_is_bits r2 B2), V1, V2, <- Hab.
  rewrite Z.add_mod_idemp_l, Z.add_mod_idemp_r by (apply Z.pow_nonzero; lia).
  f_equal. lia.
Qed.

Lemma bin_add_assoc_witness :
  (r ← bin_add [1; 0; 1] [0; 1; 1]; bin_add r [1; 1; 0])
  = (r ← bin_add [0; 1; 1] [1; 1; 0]; bin_add [1; 0; 1] r).
Proof. apply (bin_add_assoc [1; 0; 1] [0; 1; 1] [1; 1; 0]); reflexivity. Defined.

(** X6: adding a list whose elements are all zero returns the first
    operand with every element replaced by [int(bool(x))]. *)
Theorem bin_add_zero (a z : list Z) :
  length a = length z → Forall (λ x, x = 0) z →
  bin_add a z = Ok (int_bool <$> a).
Proof.
  intros Hlen Hz. apply bin_add_unique; auto using is_bits_int_bool, length_fmap.
  assert (bin_value z = 0) as ->.
  { rewrite bin_value_bits_value. apply bits_value_zero. intros k.
    destruct (nth_in_or_default k (int_bool <$> z) 0) as [Hin | Hd]; [| exact Hd].
    apply list_elem_of_In, list_elem_of_fmap in Hin as (x & -> & Hx).
    eapply Forall_forall in Hz; [| exact Hx]. rewrite Hz. reflexivity. }
  rewrite Z.add_0_r, <- bin_value_bits_value. symmetry. apply Z.mod_small.
  apply bin_value_bounds.
Qed.

Lemma bin_add_zero_witness : bin_add [1; 0; 5] [0; 0; 0] = Ok (int_bool <$> [1; 0; 5]).
Proof.
  apply (bin_add_zero [1; 0; 5] [0; 0; 0]); [reflexivity | repeat constructor].
Defined.

(** ** The 32-bit encoders outside [0, 2**32)] *)

Lemma big_loop_saturates n x :
  2 ^ Z.of_nat n - 1 ≤ x → binary_int32_big_loop n x [] = replicate n 1.
Proof.
  revert x. induction n as [| p IH]; intros x Hx; [reflexivity |].
  rewrite big_loop_succ. rewrite Nat2Z.inj_succ, Z.pow_succ_r in Hx by lia.
  assert (0 < 2 ^ Z.of_nat p) by (apply Z.pow_pos_nonneg; lia).
  cbv zeta. destruct (Z.geb_spec x (2 ^ Z.of_nat p)) as [Hge | Hlt]; [| lia].
  rewrite IH by lia. reflexivity.
Qed.

Lemma big_loop_nonpositive n x :
  x ≤ 0 → binary_int32_big_loop n x [] = replicate n 0.
Proof.
  revert x. induction n as [| p IH]; intros x Hx; [reflexivity |].
  rewrite big_loop_succ.
  assert (0 < 2 ^ Z.of_nat p) by (apply Z.pow_pos_nonneg; lia).
  cbv zeta. destruct (Z.geb_spec x (2 ^ Z.of_nat p)) as [Hge | Hlt]; [lia |].
  rewrite IH by lia. reflexivity.
Qed.

(** X7: [binary_int32_big] does not wrap around: every [x >= 2**32 - 1]
    gives 32 ones and every [x <= 0] gives 32 zeros. *)
Theorem binary_int32_big_saturates (x : Z) :
  (2 ^ 32 - 1 ≤ x →
   binary_int32_big x = "11111111111111111111111111111111"%string)
  ∧ (x ≤ 0 →
     binary_int32_big x = "00000000000000000000000000000000"%string).
Proof.
  unfold binary_int32_big, binary_int32_big_digits. split; intros Hx.
  - rewrite (big_loop_saturates 32 x Hx). vm_compute. reflexivity.
  - rewrite (big_loop_nonpositive 32 x Hx). vm_compute. reflexivity.
Qed.

Lemma binary_int32_big_saturates_witness :
  binary_int32_big (2 ^ 40) = "11111111111111111111111111111111"%string
  ∧ binary_int32_big (-7) = "00000000000000000000000000000000"%string.
Proof.
  split.
  - apply (proj1 (binary_int32_big_saturates (2 ^ 40))). lia.
  - apply (proj2 (binary_int32_big_saturates (-7))). lia.
Defined.

Lemma lit_loop_mod n x :
  binary_int32_lit_loop n x [] = binary_int32_lit_loop n (x mod 2 ^ Z.of_nat n) [].
Proof.
  destruct (lit_loop_spec n x) as (B & L & V).
  destruct (lit_loop_spec n (x mod 2 ^ Z.of_nat n)) as (B' & L' & V').
  rewrite <- (reverse_involutive (binary_int32_lit_loop n x [])).
  rewrite <- (reverse_involutive (binary_int32_lit_loop n (x mod _) [])).
  f_equal. apply bits_value_inj; try (apply is_bits_reverse; assumption).
  - rewrite !length_reverse. congruence.
  - rewrite V, V', Z.mod_mod by (apply Z.pow_nonzero; lia). reflexivity.
Qed.

Lemma lit_digits_value x :
  is_bits (binary_int32_lit_digits x)
  ∧ length (binary_int32_lit_digits x) = 32%nat
  ∧ bits_value (reverse (binary_int32_lit_digits x)) = x mod 2 ^ 32.
Proof. exact (lit_loop_spec 32 x). Qed.

(** X8: [binary_int32_lit] wraps around: for every integer [x], negative
    ones included, it is a string of 32 characters that depends only on
    [x % 2**32], and its digits read from the last to the first have
    value [x % 2**32]. *)
Theorem binary_int32_lit_wraps (x : Z) :
  binary_int32_lit x = binary_int32_lit (x mod 2 ^ 32)
  ∧ String.length (binary_int32_lit x) = 32%nat
  ∧ bin_value (digits_of_string (string_reverse (binary_int32_lit x))) = x mod 2 ^ 32.
Proof.
  unfold binary_int32_lit. split.
  - unfold binary_int32_lit_digits. rewrite (lit_loop_mod 32 x). reflexivity.
  - destruct (lit_digits_value x) as (B & L & V).
    revert B L V. generalize (binary_int32_lit_digits x). intros d B L V.
    rewrite (join_bits_length d B), (join_bits_reverse d B).
    rewrite (join_bits_digits _ (is_bits_reverse d B)).
    rewrite (bin_value_is_bits _ (is_bits_reverse d B)). auto.
Qed.

(** X9: on [0, 2**32)] the big-endian encoder is injective. *)
Theorem binary_int32_big_injective (x y : Z) :
  0 ≤ x < 2 ^ 32 → 0 ≤ y < 2 ^ 32 →
  binary_int32_big x = binary_int32_big y → x = y.
Proof.
  intros Hx Hy. unfold binary_int32_big.
  destruct (big_digits_spec x Hx) as (Bx & _ & Vx).
  destruct (big_digits_spec y Hy) as (By & _ & Vy).
  revert Bx Vx By Vy.
  generalize (binary_int32_big_digits x), (binary_int32_big_digits y).
  intros dx dy Bx Vx By Vy E.
  apply (f_equal digits_of_string) in E.
  rewrite (join_bits_digits dx Bx), (join_bits_digits dy By) in E. congruence.
Qed.

Lemma binary_int32_big_injective_witness : 2 + 3 = 5.
Proof. apply (binary_int32_big_injective (2 + 3) 5); [lia | lia | reflexivity]. Defined.

(** ** The digit table and [dec2bin_array] *)

Lemma table_entries :
  _dec2bin
  = list_to_map
      [("0", nibble 0); ("1", nibble 1); ("2", nibble 2); ("3", nibble 3);
       ("4", nibble 4); ("5", nibble 5); ("6", nibble 6); ("7", nibble 7);
       ("8", nibble 8); ("9", nibble 9)]%string.
Proof. vm_compute. reflexivity. Qed.

(** X10: the table built by [get_dec2bin_dict] has exactly the keys
    [str(0)] .. [str(9)]; the entry of [str(k)] is a list of four bits whose
    [bin_value] is [k]. *)
Theorem dec2bin_table_contents :
  (∀ k, 0 ≤ k ≤ 9 →
        ∃ g, _dec2bin !! str k = Some g ∧ length g = 4%nat ∧ is_bits g
             ∧ bin_value g = k)
  ∧ (∀ key g, _dec2bin !! key = Some g → ∃ k, 0 ≤ k ≤ 9 ∧ key = str k).
Proof.
  split.
  - intros k Hk. exists (nibble k).
    destruct (nibble_valid k Hk) as [(L & B & _) V].
    split; [| auto]. clear L B V. each_digit Hk; vm_compute; reflexivity.
  - intros key g H. rewrite table_entries in H.
    apply elem_of_list_to_map_2, list_elem_of_In in H. cbn [In] in H.
    repeat (destruct H as [H | H];
            [injection H as <- _;
             first [exists 0; split; [lia | reflexivity]
                   | exists 1; split; [lia | reflexivity]
                   | exists 2; split; [lia | reflexivity]
                   | exists 3; split; [lia | reflexivity]
                   | exists 4; split; [lia | reflexivity]
                   | exists 5; split; [lia | reflexivity]
                   | exists 6; split; [lia | reflexivity]
                   | exists 7; split; [lia | reflexivity]
                   | exists 8; split; [lia | reflexivity]
                   | exists 9; split; [lia | reflexivity]] |]).
    destruct H.
Qed.

Lemma dec2bin_table_contents_witness :
  ∃ g, _dec2bin !! str 7 = Some g ∧ length g = 4%nat ∧ is_bits g ∧ bin_value g = 7.
Proof. apply (proj1 dec2bin_table_contents 7). lia. Defined.

(** X11: [dec2bin_array] fails, with the [KeyError] of the table lookup,
    exactly on the strings that contain a character other than '0'..'9'. *)
Theorem dec2bin_array_key_error (s : string) :
  dec2bin_array s = Raise KeyError ↔ is_digit_string s = false.
Proof.
  split.
  - intros H. destruct (is_digit_string s) eqn:Hs; [| reflexivity].
    destruct (dec2bin_array_digits s Hs) as [E _]. congruence.
  - apply dec2bin_array_not_digits.
Qed.

(** X12: on a string of decimal digits [dec2bin_array] returns one group
    per character, each a valid BCD group whose [bin_value] is the digit,
    so the groups read as a decimal numeral give back [int(s)]. *)
Theorem dec2bin_array_decodes (s : string) :
  is_digit_string s = true →
  ∃ rem, dec2bin_array s = Ok rem
         ∧ length rem = String.length s
         ∧ Forall valid_bcd rem
         ∧ bin_value <$> rem = digits_of_string s
         ∧ digits_value (bin_value <$> rem) = dec_value s.
Proof.
  intros Hs. destruct (dec2bin_array_digits s Hs) as [E F].
  eexists; split; [exact E |]. unfold digits_of_string.
  set (ds := digit_of <$> String.list_ascii_of_string s) in *.
  assert (bin_value <$> (nibble <$> ds) = ds) as Hdec.
  { clear E. induction F as [| d ds Hd _ IH]; [reflexivity |].
    rewrite !fmap_cons, IH, (proj2 (nibble_valid d Hd)). reflexivity. }
  rewrite Hdec, dec_value_digits.
  repeat split; auto using nibbles_valid.
  rewrite length_fmap. unfold ds. rewrite length_fmap. apply length_list_ascii.
Qed.

Lemma dec2bin_array_decodes_witness :
  ∃ rem, dec2bin_array "913" = Ok rem
         ∧ length rem = String.length "913"
         ∧ Forall valid_bcd rem
         ∧ bin_value <$> rem = digits_of_string "913"
         ∧ digits_value (bin_value <$> rem) = dec_value "913".
Proof. apply (dec2bin_array_decodes "913"). reflexivity. Defined.

(** ** Repeated halving *)

Lemma floor_div_2_iter_length k a : length (Nat.iter k floor_div_2 a) = length a.
Proof.
  induction k as [| k IH]; [reflexivity |].
  change (Nat.iter (S k) floor_div_2 a) with (floor_div_2 (Nat.iter k floor_div_2 a)).
  rewrite floor_div_2_length. exact IH.
Qed.

(** X13: [k] applications of [floor_div_2] keep the length and divide the
    value by [2**k]; after [len(a)] applications the value is 0. *)
Theorem floor_div_2_iterated (k : nat) (a : list Z) :
  length (Nat.iter k floor_div_2 a) = length a
  ∧ bin_value (Nat.iter k floor_div_2 a) = bin_value a / 2 ^ Z.of_nat k
  ∧ ((length a ≤ k)%nat → bin_value (Nat.iter k floor_div_2 a) = 0).
Proof.
  assert (Hv : bin_value (Nat.iter k floor_div_2 a) = bin_value a / 2 ^ Z.of_nat k).
  { induction k as [| k IH]; [cbn; rewrite Z.div_1_r; reflexivity |].
    change (Nat.iter (S k) floor_div_2 a) with (floor_div_2 (Nat.iter k floor_div_2 a)).
    rewrite floor_div_2_value, IH, Nat2Z.inj_succ, Z.pow_succ_r by lia.
    rewrite Z.div_div by (try apply Z.pow_pos_nonneg; lia).
    f_equal. lia. }
  split; [apply floor_div_2_iter_length |]. split; [exact Hv |].
  intros Hk. rewrite Hv. apply Z.div_small.
  pose proof (bin_value_bounds a) as Hb.
  assert (2 ^ Z.of_nat (length a) ≤ 2 ^ Z.of_nat k) by (apply Z.pow_le_mono_r; lia).
  lia.
Qed.

Lemma floor_div_2_iterated_witness :
  bin_value (Nat.iter 4 floor_div_2 [1; 0; 1; 1]) = 0.
Proof. apply (proj2 (proj2 (floor_div_2_iterated 4 [1; 0; 1; 1]))). cbn. lia. Defined.

(** ** [dec2bin] as a function of the integer value *)

Lemma pos_bits_spec p :
  is_bits (pos_bits p) ∧ length (pos_bits p) = Pos.size_nat p
  ∧ last (pos_bits p) = Some 1
  ∧ bits_value (reverse (pos_bits p)) = Z.pos p.
Proof.
  induction p as [q (B & L & H & V) | q (B & L & H & V) |];
    cbn [pos_bits Pos.size_nat length].
  - repeat split; [constructor; auto | lia | | ].
    + destruct (pos_bits q); [discriminate | exact H].
    + rewrite reverse_cons, bits_value_app, V. lia.
  - repeat split; [constructor; auto | lia | | ].
    + destruct (pos_bits q); [discriminate | exact H].
    + rewrite reverse_cons, bits_value_app, V. lia.
  - repeat split. constructor; [right; reflexivity | constructor].
Qed.

Lemma dec2bin_body_value ds bin :
  Forall dec_digit ds → digits_value ds ≠ 0 →
  ∃ ds', dec2bin_body (nibble <$> ds, bin)
         = Ok (nibble <$> ds', bin ++ [digits_value ds mod 2])
         ∧ Forall dec_digit ds' ∧ length ds' = length ds
         ∧ digits_value ds' = digits_value ds / 2.
Proof.
  intros Hds Hnz. assert (ds ≠ []) as Hne by (intros ->; apply Hnz; reflexivity).
  pose proof (halve_from_value 0 ds) as Hv. change (0 mod 2) with 0 in Hv.
  rewrite Z.mul_0_l, Z.add_0_l in Hv.
  pose proof (mod_2_cases (List.last ds 0)) as Hbit.
  assert (digits_value ds mod 2 = List.last ds 0 mod 2) as Hm
    by (rewrite <- Hv; destruct Hbit as [-> | ->];
        rewrite Z.add_comm, Z.mul_comm, Z.mod_add by lia; reflexivity).
  exists (halve_from 0 ds). rewrite Hm.
  split; [apply dec2bin_body_digits; assumption |].
  split; [apply halve_from_digit, Hds |]. split; [apply halve_from_length |].
  apply Z.div_unique with (r := List.last ds 0 mod 2); lia.
Qed.

Lemma dec2bin_loop_zero fuel ds bin :
  Forall dec_digit ds → digits_value ds = 0 →
  dec2bin_loop (S fuel) (nibble <$> ds, bin) = Some (Ok (nibble <$> ds, bin)).
Proof.
  intros Hds Hz. cbn [dec2bin_loop fst]. rewrite (np_any_nibbles ds Hds), Hz.
  reflexivity.
Qed.

Lemma dec2bin_loop_pos p :
  ∀ fuel ds bin,
    Forall dec_digit ds → digits_value ds = Z.pos p →
    ((Pos.size_nat p < fuel)%nat →
     ∃ rem, dec2bin_loop fuel (nibble <$> ds, bin) = Some (Ok (rem, bin ++ pos_bits p)))
    ∧ ((fuel ≤ Pos.size_nat p)%nat →
       dec2bin_loop fuel (nibble <$> ds, bin) = None).
Proof.
  induction p as [q IH | q IH |]; intros fuel ds bin Hds Hv;
    (destruct fuel as [| fuel];
     [split; [cbn [Pos.size_nat]; lia | reflexivity] |]);
    cbn [dec2bin_loop fst Pos.size_nat pos_bits];
    rewrite (np_any_nibbles ds Hds), Hv; cbn [Z.eqb negb];
    (destruct (dec2bin_body_value ds bin Hds) as (ds' & E & Hds' & _ & Hv');
     [rewrite Hv; discriminate |]); rewrite E, Hv; rewrite Hv in Hv'.
  - change (Z.pos q~1) with (2 * Z.pos q + 1) in *.
    assert (digits_value ds' = Z.pos q) as Hq
      by (rewrite Hv'; apply eq_sym, Z.div_unique with (r := 1); lia).
    replace ((2 * Z.pos q + 1) mod 2) with 1
      by (rewrite Z.add_comm, Z.mul_comm, Z.mod_add by lia; reflexivity).
    destruct (IH fuel ds' (bin ++ [1]) Hds' Hq) as [IH1 IH2].
    split; intros Hf.
    + destruct IH1 as [rem E1]; [lia |]. exists rem.
      rewrite E1, <- app_assoc. reflexivity.
    + apply IH2. lia.
  - change (Z.pos q~0) with (2 * Z.pos q) in *.
    assert (digits_value ds' = Z.pos q) as Hq
      by (rewrite Hv'; apply eq_sym, Z.div_unique with (r := 0); lia).
    replace ((2 * Z.pos q) mod 2) with 0
      by (rewrite Z.mul_comm, Z.mod_mul by lia; reflexivity).
    destruct (IH fuel ds' (bin ++ [0]) Hds' Hq) as [IH1 IH2].
    split; intros Hf.
    + destruct IH1 as [rem E1]; [lia |]. exists rem.
      rewrite E1, <- app_assoc. reflexivity.
    + apply IH2. lia.
  - change (1 / 2) with 0 in Hv'. change (1 mod 2) with 1.
    destruct fuel as [| fuel].
    + split; [lia | reflexivity].
    + rewrite (dec2bin_loop_zero fuel ds' _ Hds' Hv').
      split; [eauto | lia].
Qed.

Lemma dec2bin_by_value s fuel :
  is_digit_string s = true → dec2bin fuel s = dec2bin_of_value fuel (dec_value s).
Proof.
  intros Hs. destruct (dec2bin_array_digits s Hs) as [E F].
  unfold dec2bin. rewrite E, dec_value_digits.
  set (ds := digit_of <$> String.list_ascii_of_string s) in *.
  pose proof (digits_value_bounds ds F) as Hb.
  destruct (digits_value ds) as [| p | p] eqn:Hv; [| | lia]; unfold dec2bin_of_value.
  - destruct fuel as [| fuel]; [reflexivity |].
    rewrite (dec2bin_loop_zero fuel ds [] F Hv), decide_True by lia. reflexivity.
  - destruct (dec2bin_loop_pos p fuel ds [] F Hv) as [H1 H2].
    destruct (decide (Pos.size_nat p < fuel)%nat) as [Hf | Hf].
    + destruct (H1 Hf) as [rem E1]. rewrite E1. reflexivity.
    + rewrite H2 by lia. reflexivity.
Qed.

(** X14: on the digit string of a positive integer [dec2bin] returns ["0b"]
    followed by the binary digits of that integer, the first of them 1 (no
    leading zero), as soon as the fuel allows one evaluation of the loop
    condition per binary digit and one more; with less fuel the loop is
    still running. *)
Theorem dec2bin_canonical (s : string) (p : positive) (fuel : nat) :
  is_digit_string s = true → dec_value s = Z.pos p →
  ((Pos.size_nat p < fuel)%nat →
   dec2bin fuel s = Some (Ok ("0b" +:+ join (str <$> reverse (pos_bits p)))))
  ∧ ((fuel ≤ Pos.size_nat p)%nat → dec2bin fuel s = None)
  ∧ head (reverse (pos_bits p)) = Some 1
  ∧ length (reverse (pos_bits p)) = Pos.size_nat p
  ∧ bin_value (reverse (pos_bits p)) = Z.pos p.
Proof.
  intros Hs Hv. rewrite (dec2bin_by_value s fuel Hs), Hv. unfold dec2bin_of_value.
  destruct (pos_bits_spec p) as (B & L & H & V).
  split; [intros Hf; rewrite decide_True by exact Hf; reflexivity |].
  split; [intros Hf; rewrite decide_False by lia; reflexivity |].
  rewrite head_reverse, length_reverse, bin_value_is_bits by (apply is_bits_reverse, B).
  auto.
Qed.

Lemma dec2bin_canonical_witness :
  dec2bin 11 "0913" = Some (Ok ("0b" +:+ join (str <$> reverse (pos_bits 913)))).
Proof.
  apply (proj1 (dec2bin_canonical "0913" 913 11 eq_refl eq_refl)). cbn. lia.
Defined.

(** X15: on digit strings the result of [dec2bin] depends only on the
    integer represented: two digit strings with the same value, such as
    ["7"] and ["007"], give the same result with the same fuel. *)
Theorem dec2bin_value_determined (s1 s2 : string) (fuel : nat) :
  is_digit_string s1 = true → is_digit_string s2 = true →
  dec_value s1 = dec_value s2 →
  dec2bin fuel s1 = dec2bin fuel s2.
Proof.
  intros H1 H2 Hv. rewrite (dec2bin_by_value s1 fuel H1), (dec2bin_by_value s2 fuel H2).
  rewrite Hv. reflexivity.
Qed.

Lemma dec2bin_value_determined_witness : dec2bin 5 "007" = dec2bin 5 "7".
Proof. apply (dec2bin_value_determined "007" "7" 5); reflexivity. Defined.

(** X16: on a string with a character other than '0'..'9' (a sign, a
    decimal point, a letter) [dec2bin] raises the [KeyError] of the table
    lookup before its loop starts. *)
Theorem dec2bin_key_error (s : string) (fuel : nat) :
  is_digit_string s = false → dec2bin fuel s = Some (Raise KeyError).
Proof.
  intros Hs. unfold dec2bin. rewrite (dec2bin_array_not_digits s Hs). reflexivity.
Qed.

Lemma dec2bin_key_error_witness : dec2bin 0 "-5" = Some (Raise KeyError).
Proof. apply (dec2bin_key_error "-5" 0). reflexivity. Defined.

(** X17: one iteration of the loop of [dec2bin], from a state of valid BCD
    groups that are not all zero, halves the decimal number the groups
    represent and appends its parity to the collected bits; the number of
    groups does not change. *)
Theorem dec2bin_body_halves (rem : list (list Z)) (bin : list Z) :
  Forall valid_bcd rem → np_any rem = true →
  ∃ rem',
    dec2bin_body (rem, bin)
    = Ok (rem', bin ++ [digits_value (bin_value <$> rem) mod 2])
    ∧ Forall valid_bcd rem' ∧ length rem' = length rem
    ∧ digits_value (bin_value <$> rem') = digits_value (bin_value <$> rem) / 2.
Proof.
  intros Hv Hany. destruct (valid_bcd_digits rem Hv) as [E D].
  set (ds := bin_value <$> rem) in *.
  assert (digits_value ds ≠ 0) as Hnz.
  { rewrite E, (np_any_nibbles ds D) in Hany.
    apply negb_true_iff, Z.eqb_neq in Hany. exact Hany. }
  destruct (dec2bin_body_value ds bin D Hnz) as (ds' & Eb & D' & L' & V').
  exists (nibble <$> ds'). rewrite E at 1.
  split; [exact Eb |]. split; [apply nibbles_valid, D' |].
  split; [rewrite length_fmap, L'; unfold ds; apply length_fmap |].
  rewrite <- V'. f_equal.
  clear -D'. induction D' as [| d ds' Hd _ IH]; [reflexivity |].
  rewrite !fmap_cons, IH, (proj2 (nibble_valid d Hd)). reflexivity.
Qed.

Lemma dec2bin_body_halves_witness :
  ∃ rem',
    dec2bin_body ([[0; 0; 1; 1]; [0; 1; 1; 1]], [])
    = Ok (rem', [] ++ [digits_value (bin_value <$> [[0; 0; 1; 1]; [0; 1; 1; 1]]) mod 2])
    ∧ Forall valid_bcd rem' ∧ length rem' = length [[0; 0; 1; 1]; [0; 1; 1; 1]]
    ∧ digits_value (bin_value <$> rem')
      = digits_value (bin_value <$> [[0; 0; 1; 1]; [0; 1; 1; 1]]) / 2.
Proof.
  apply (dec2bin_body_halves [[0; 0; 1; 1]; [0; 1; 1; 1]] []).
  - repeat constructor; vm_compute; discriminate.
  - reflexivity.
Defined.

(** ** [dec2bin] on an integer argument *)

(** [dec2bin(s)] starts with [str(s)], so it also accepts an integer. *)







(** ** More on [bin_add] *)

(** X19: [bin_add] sees its operands only through the truthiness of their
    elements: replacing every element by [int(bool(x))] changes nothing. *)
Theorem bin_add_truthiness (a b : list Z) :
  bin_add a b = bin_add (int_bool <$> a) (int_bool <$> b).
Proof.
  destruct (decide (length a = length b)) as [Hlen | Hlen].
  - destruct (bin_add_spec a b Hlen) as (res & E & B & L & V). rewrite E.
    symmetry. apply bin_add_unique; rewrite ?length_fmap; auto.
    rewrite V, !bin_value_bits_value.
    rewrite !(int_bool_fmap_id _ (is_bits_int_bool _)). reflexivity.
  - rewrite !bin_add_raises; rewrite ?length_fmap; auto.
Qed.

(** X20: [bin_add] can be cancelled: if adding [b] and adding [c] to the
    same [a] give the same result, then [b] and [c] have the same
    truthiness at every position. *)
Theorem bin_add_cancel (a b c : list Z) :
  length a = length b → length a = length c →
  bin_add a b = bin_add a c → int_bool <$> b = int_bool <$> c.
Proof.
  intros Hb Hc E.
  destruct (bin_add_spec a b Hb) as (r1 & E1 & _ & _ & V1).
  destruct (bin_add_spec a c Hc) as (r2 & E2 & _ & _ & V2).
  assert (r1 = r2) as <- by congruence. rewrite V1 in V2.
  apply bin_value_truthiness_inj; [congruence |].
  pose proof (bin_value_bounds a) as Ha.
  pose proof (bin_value_bounds b) as Hvb. pose proof (bin_value_bounds c) as Hvc.
  rewrite <- Hb in Hvb. rewrite <- Hc in Hvc.
  set (M := 2 ^ Z.of_nat (length a)) in *.
  assert (0 < M) as HM by (apply Z.pow_pos_nonneg; lia).
  assert ((bin_value b - bin_value c) mod M = 0) as Hm.
  { replace (bin_value b - bin_value c)
      with ((bin_value a + bin_value b) - (bin_value a + bin_value c)) by lia.
    rewrite Zminus_mod, V2, Z.sub_diag. apply Z.mod_0_l. lia. }
  clearbody M. apply Z.mod_divide in Hm as [q Hq]; [| lia].
  assert (q = 0) as -> by nia. lia.
Qed.

Lemma bin_add_cancel_witness : int_bool <$> [0; 1; 1] = int_bool <$> [0; 2; 3].
Proof. apply (bin_add_cancel [1; 0; 1] [0; 1; 1] [0; 2; 3]); reflexivity. Defined.

(** X21: the operations compose: adding the digit lists of the big-endian
    encodings of [x] and [y] gives the digit list of the encoding of
    [(x + y) % 2**32]. *)
Theorem bin_add_binary_int32_big (x y : Z) :
  0 ≤ x < 2 ^ 32 → 0 ≤ y < 2 ^ 32 →
  bin_add (digits_of_string (binary_int32_big x))
          (digits_of_string (binary_int32_big y))
  = Ok (digits_of_string (binary_int32_big ((x + y) mod 2 ^ 32))).
Proof.
  intros Hx Hy. unfold binary_int32_big.
  assert (0 ≤ (x + y) mod 2 ^ 32 < 2 ^ 32) as Hz by (apply Z.mod_pos_bound; lia).
  destruct (big_digits_spec x Hx) as (Bx & Lx & Vx).
  destruct (big_digits_spec y Hy) as (By & Ly & Vy).
  destruct (big_digits_spec _ Hz) as (Bz & Lz & Vz).
  revert Bx Lx Vx By Ly Vy Bz Lz Vz.
  generalize (binary_int32_big_digits x), (binary_int32_big_digits y),
    (binary_int32_big_digits ((x + y) mod 2 ^ 32)).
  intros dx dy dz Bx Lx Vx By Ly Vy Bz Lz Vz.
  rewrite (join_bits_digits dx Bx), (join_bits_digits dy By), (join_bits_digits dz Bz).
  apply bin_add_unique; try congruence.
  rewrite Vz, (bin_value_is_bits dx Bx), (bin_value_is_bits dy By), Vx, Vy, Lx.
  reflexivity.
Qed.

Lemma bin_add_binary_int32_big_witness :
  bin_add (digits_of_string (binary_int32_big 7))
          (digits_of_string (binary_int32_big 5))
  = Ok (digits_of_string (binary_int32_big ((7 + 5) mod 2 ^ 32))).
Proof. apply (bin_add_binary_int32_big 7 5); lia. Defined.
